(** * VidFlow dashboard: view-state glue, verified against its specification

  A shallow embedding of the client-side logic of the VidFlow dashboard:

  - [Js]: the fragment of JavaScript values the code manipulates
    (decoded JSON frames and response bodies, property reads, truthiness,
    string coercion of computed property keys, [Error] objects);
  - [Hook]: [src/hooks/useWebSocket.js], the reconnecting progress socket;
  - [Api]: [src/lib/api.js], [APIClient.request] and its retry loop;
  - [Progress]: the stream-event handlers of [src/pages/WorkflowProgress.jsx]
    and of the [WorkflowExecutionDetails] page;
  - [Builder]: the graph operations of [src/pages/WorkflowBuilder.jsx];
  - [Scanner]: the selection of the channel scanner in
    [src/pages/AccountManager.jsx];
  - [Format]: the duration formatters of the details page and of
    [src/pages/SingleDownloader.jsx].

  Numbers are integers ([Z]): ids, indices, HTTP statuses, millisecond
  delays and timestamps are the only numbers the modelled code inspects.
  A document with a fraction in it has no counterpart here, and where a
  number of a document is printed the statements keep to the integers
  that print digit for digit ([Js.safe_integers]). *)

From stdpp Require Import base gmap strings list pretty.
From Stdlib Require Import ZArith Lia.

Set Warnings "-register-all".

(* ===================================================================== *)
(** * JavaScript values *)
(* ===================================================================== *)

Module Js.

(** A decoded JSON document, as [JSON.parse] or [response.json()] yields.
    The fields of an object are kept in textual order. *)
Inductive json : Type :=
| JNull
| JBool (b : bool)
| JNum (n : Z)
| JStr (s : string)
| JArr (items : list json)
| JObj (fields : list (string * json)).

(** An [Error] object: its [name] and its [message].  An error the engine
    raises with a text of its own choosing, which differs from engine to
    engine and with the input, is [Native]: only its name is known. *)
Inductive JsError : Type :=
| mkError (name message : string)
| Native (name : string).

(** [e.name]. *)
Definition name (e : JsError) : string :=
  match e with
  | mkError n _ | Native n => n
  end.

Definition new_Error (msg : string) : JsError := mkError "Error" msg.
Definition TypeError (msg : string) : JsError := mkError "TypeError" msg.

(** The outcome of evaluating an expression: a value, or a thrown error. *)
Inductive completion (A : Type) : Type :=
| Normal (a : A)
| Throw (e : JsError).
Arguments Normal {A} a.
Arguments Throw {A} e.

(** Sequencing: a thrown error skips the rest ([x ← c; k] below). *)
#[export] Instance completion_ret : MRet completion := fun A a => Normal a.
#[export] Instance completion_bind : MBind completion := fun A B k c =>
  match c with
  | Normal a => k a
  | Throw e => Throw e
  end.

(** The binding of [k] in an object: when the text repeats a key, the
    last occurrence wins. *)
Definition own_property (k : string) (fields : list (string * json)) : option json :=
  fold_left (fun acc kv => if String.eqb (fst kv) k then Some (snd kv) else acc)
            fields None.

(** [v.k] for one of the identifiers the code reads ([download_id],
    [progress], [status], [message], [detail]); none of them is inherited
    from a prototype, so only objects answer.  [None] is [undefined];
    reading a property of [null] throws. *)
Definition get_prop (v : json) (k : string) : completion (option json) :=
  match v with
  | JNull => Throw (TypeError ("Cannot read properties of null (reading '" +:+ k +:+ "')"))
  | JObj fields => Normal (own_property k fields)
  | _ => Normal None
  end.

(** The same read, where it cannot throw. *)
Definition prop_of (v : json) (k : string) : option json :=
  match v with
  | JObj fields => own_property k fields
  | _ => None
  end.

Definition join (sep : string) (parts : list string) : string :=
  match parts with
  | [] => ""
  | p :: ps => fold_left (fun acc q => acc +:+ sep +:+ q) ps p
  end.

(** [Number.MAX_SAFE_INTEGER]. *)
Definition MAX_SAFE_INTEGER : Z := 2 ^ 53 - 1.

(** The documents whose numbers print digit for digit.  A number is held
    as the integer it denotes; up to [MAX_SAFE_INTEGER] in magnitude the
    engine prints every digit of it, beyond that it rounds the digits or
    writes an exponent ([1e+21]).  Only the numbers that [to_string] prints
    count: the elements of arrays, not the fields of objects. *)
Fixpoint safe_integers (v : json) : bool :=
  match v with
  | JNum n => (Z.abs n <=? MAX_SAFE_INTEGER)%Z
  | JArr items => forallb safe_integers items
  | _ => true
  end.

(** The same for a value that may be [undefined]. *)
Definition safe_value (v : option json) : bool :=
  match v with
  | None => true
  | Some j => safe_integers j
  end.

(** The text of one element of an array, as [Array.prototype.join] takes
    it, [print] being the coercion of a value: [null] gives the empty
    string. *)
Definition element_text (print : json -> completion string) (x : json)
    : completion string :=
  match x with
  | JNull => Normal ""
  | _ => print x
  end.

(** The texts of all the elements, in order; the first element that cannot
    be coerced throws. *)
Definition elements (print : json -> completion string)
    : list json -> completion (list string) :=
  fix elems (l : list json) : completion (list string) :=
    match l with
    | [] => Normal []
    | x :: r =>
        match element_text print x with
        | Normal s =>
            match elems r with
            | Normal rest => Normal (s :: rest)
            | Throw e => Throw e
            end
        | Throw e => Throw e
        end
    end.

(** [String(v)]: how a value becomes a computed property key or an error
    message.  An array joins its elements with commas.  An object of a JSON
    document inherits [Object.prototype.toString] and prints as
    [[object Object]], unless it has a [toString] field of its own: that
    field is no function, and [valueOf] gives no primitive either, so the
    conversion throws.  Numbers are printed in full, which is what the
    engine does on [safe_integers]. *)
Fixpoint to_string (v : json) : completion string :=
  match v with
  | JNull => Normal "null"
  | JBool true => Normal "true"
  | JBool false => Normal "false"
  | JNum n => Normal (pretty n)
  | JStr s => Normal s
  | JArr items =>
      match elements to_string items with
      | Normal parts => Normal (join "," parts)
      | Throw e => Throw e
      end
  | JObj fields =>
      match own_property "toString" fields with
      | Some _ => Throw (TypeError "Cannot convert object to primitive value")
      | None => Normal "[object Object]"
      end
  end.


(** The key under which [{ [v]: ... }] stores its entry. *)
Definition property_key (v : option json) : completion string :=
  match v with
  | None => Normal "undefined"
  | Some j => to_string j
  end.

(** [String(v)] of a possibly undefined value. *)
Definition String_ (v : option json) : completion string := property_key v.


(** Truthiness, as [||] and [if] see it. *)
Definition truthy (v : option json) : bool :=
  match v with
  | None => false
  | Some JNull => false
  | Some (JBool b) => b
  | Some (JNum n) => negb (n =? 0)%Z
  | Some (JStr s) => negb (String.eqb s "")
  | Some (JArr _) => true
  | Some (JObj _) => true
  end.

End Js.

(* ===================================================================== *)
(** * The reconnecting progress socket *)
(* ===================================================================== *)

Module Hook.
Import Js.

Definition RECONNECT_DELAY : Z := 3000.

(** One entry of the progress map. *)
Record ProgressEntry : Type := mkEntry {
  downloadId : option json;
  progress_ : option json;
  status : option json;
  message_ : option json;
  timestamp : Z
}.

(** What [JSON.parse(event.data)] gives: a syntax error or a document. *)
Inductive Frame : Type :=
| Malformed
| Parsed (data : json).

(** The updater handed to [setProgress] by [ws.onmessage]; React runs it
    against the previous map, [now] is [Date.now()].  The computed key is
    evaluated, and coerced, before the entry is built. *)
Definition progress_updater (data : json) (now : Z)
    (prev : gmap string ProgressEntry) : completion (gmap string ProgressEntry) :=
  id ← get_prop data "download_id";
  key ← property_key id;
  p ← get_prop data "progress";
  s ← get_prop data "status";
  m ← get_prop data "message";
  Normal (<[ key := mkEntry id p s m now ]> prev).

(** [ws.onmessage]: a frame that does not parse is logged and dropped
    inside the [try]; for one that parses the handler only queues the
    updater, so what the updater throws is thrown when React runs it, out
    of reach of the [catch]. *)
Definition onmessage (frame : Frame) (now : Z)
    (prev : gmap string ProgressEntry) : completion (gmap string ProgressEntry) :=
  match frame with
  | Malformed => Normal prev
  | Parsed data => progress_updater data now prev
  end.

(** Whether the updater of a frame throws; neither the clock nor the map
    has a part in that. *)
Definition updater_throws (frame : Frame) : bool :=
  match onmessage frame 0 ∅ with
  | Normal _ => false
  | Throw _ => true
  end.

(** The frames whose [download_id] has only numbers that print digit for
    digit (see [safe_integers]). *)
Definition safe_frame (frame : Frame) : bool :=
  match frame with
  | Malformed => true
  | Parsed data => safe_value (prop_of data "download_id")
  end.

(** The names every object inherits from [Object.prototype]; the progress
    map is built by an object literal, so it has them all. *)
Definition Object_prototype : list string :=
  [ "constructor"; "__defineGetter__"; "__defineSetter__"; "hasOwnProperty";
    "__lookupGetter__"; "__lookupSetter__"; "isPrototypeOf";
    "propertyIsEnumerable"; "toString"; "valueOf"; "__proto__";
    "toLocaleString" ].

(** What a read of the progress map finds: an entry of the map, or the
    member of [Object.prototype] of that name. *)
Inductive Found : Type :=
| Own (entry : ProgressEntry)
| Inherited (member : string).

(** [getProgress]: [progress[downloadId] || null].  Entries are objects and
    inherited members are functions or objects, all truthy; [None] is
    [null]. *)
Definition getProgress (progress : gmap string ProgressEntry) (downloadId : string)
    : option Found :=
  match progress !! downloadId with
  | Some entry => Some (Own entry)
  | None =>
      if decide (downloadId ∈ Object_prototype) then Some (Inherited downloadId)
      else None
  end.

(** [clearProgress]: copy the map and delete the key. *)
Definition clearProgress (downloadId : string) (prev : gmap string ProgressEntry)
    : gmap string ProgressEntry :=
  delete downloadId prev.

(** ** The object the hook returns *)

(** The values held by the fields of the returned object. *)
Inductive HookField : Type :=
| FFlag (b : bool)
| FMap (m : gmap string ProgressEntry)
| FGetProgress (f : string -> option Found)
| FClearProgress (f : string -> gmap string ProgressEntry -> gmap string ProgressEntry).

(** [return { isConnected, progress, getProgress, clearProgress }]. *)
Definition useWebSocket (isConnected : bool) (progress : gmap string ProgressEntry)
    : list (string * HookField) :=
  [ ("isConnected", FFlag isConnected);
    ("progress", FMap progress);
    ("getProgress", FGetProgress (getProgress progress));
    ("clearProgress", FClearProgress clearProgress) ].

(** [const { k } = obj]: the field named [k], [None] when the object has no
    such field ([undefined]). *)
Definition destructure (k : string) (obj : list (string * HookField)) : option HookField :=
  (fun hit => snd (snd hit)) <$> list_find (fun kv => fst kv = k) obj.

(** ** Connection life cycle *)

(** [WebSocket.readyState]. *)
Inductive ReadyState : Type := CONNECTING | OPEN | CLOSING | CLOSED.

#[export] Instance ReadyState_eq_dec : EqDecision ReadyState.
Proof. solve_decision. Defined.

(** One hook instance together with the browser objects it created.
    Sockets are numbered in creation order; [timers] are the pending
    time-outs, each with its id (ids start at 1) and its delay. *)
Record State : Type := mkState {
  mounted : bool;
  isConnected : bool;
  progress : gmap string ProgressEntry;
  wsRef : option nat;
  reconnectTimeoutRef : option nat;
  sockets : list ReadyState;
  timers : list (nat * Z);
  timer_count : nat
}.

Definition initial : State :=
  mkState false false ∅ None None [] [] 0.

(** React keeps no state for a component that is gone. *)
Definition setIsConnected (b : bool) (st : State) : State :=
  if mounted st
  then mkState (mounted st) b (progress st) (wsRef st) (reconnectTimeoutRef st)
               (sockets st) (timers st) (timer_count st)
  else st.

Definition setProgress (m : gmap string ProgressEntry) (st : State) : State :=
  if mounted st
  then mkState (mounted st) (isConnected st) m (wsRef st) (reconnectTimeoutRef st)
               (sockets st) (timers st) (timer_count st)
  else st.

(** [reconnectTimeoutRef.current = setTimeout(connect, delay)]. *)
Definition schedule_reconnect (delay : Z) (st : State) : State :=
  let tid := S (timer_count st) in
  mkState (mounted st) (isConnected st) (progress st) (wsRef st) (Some tid)
          (sockets st) (timers st ++ [(tid, delay)]) tid.

(** [clearTimeout(tid)]. *)
Definition clearTimeout (tid : nat) (st : State) : State :=
  mkState (mounted st) (isConnected st) (progress st) (wsRef st) (reconnectTimeoutRef st)
          (sockets st) (filter (fun t => fst t ≠ tid) (timers st)) (timer_count st).

Definition set_socket (ws : nat) (rs : ReadyState) (st : State) : State :=
  mkState (mounted st) (isConnected st) (progress st) (wsRef st) (reconnectTimeoutRef st)
          (<[ ws := rs ]> (sockets st)) (timers st) (timer_count st).

(** [connect]: open a socket, attach the four handlers and remember it; when
    the constructor throws, retry after [RECONNECT_DELAY]. *)
Definition connect (constructor_throws : bool) (st : State) : State :=
  if constructor_throws
  then schedule_reconnect RECONNECT_DELAY st
  else mkState (mounted st) (isConnected st) (progress st)
               (Some (length (sockets st))) (reconnectTimeoutRef st)
               (sockets st ++ [CONNECTING]) (timers st) (timer_count st).

(** [ws.onopen]. *)
Definition onopen (st : State) : State := setIsConnected true st.

(** [ws.onclose]: whatever closed the socket, one time-out of
    [RECONNECT_DELAY] is armed. *)
Definition onclose (st : State) : State :=
  schedule_reconnect RECONNECT_DELAY (setIsConnected false st).

(** [ws.close()]: a socket that is connecting or open starts closing, and
    the browser reports the close later. *)
Definition ws_close (ws : nat) (st : State) : State :=
  match sockets st !! ws with
  | Some CONNECTING | Some OPEN => set_socket ws CLOSING st
  | _ => st
  end.

(** The clean-up of the mounting effect. *)
Definition cleanup (st : State) : State :=
  let st1 :=
    match reconnectTimeoutRef st with
    | Some tid => if decide (tid = 0) then st else clearTimeout tid st
    | None => st
    end in
  match wsRef st1 with
  | Some ws => ws_close ws st1
  | None => st1
  end.

(** What the environment may do to a hook instance. *)
Inductive Event : Type :=
| Mount (constructor_throws : bool)
| Opened (ws : nat)
| Message (ws : nat) (frame : Frame) (now : Z)
| Errored (ws : nat)
| Closed (ws : nat)
| TimerFired (tid : nat) (constructor_throws : bool)
| Unmount.

(** The consumer is taken off the page: React forgets the component and
    runs the clean-up of its effect. *)
Definition unmount (st : State) : State :=
  cleanup (mkState false (isConnected st) (progress st) (wsRef st)
                   (reconnectTimeoutRef st) (sockets st) (timers st)
                   (timer_count st)).

(** One reaction of the hook; [None] when the browser cannot produce the
    event in that state.  A time-out that fires leaves the pending ones and
    runs [connect].  A frame has React run its updater before the next
    event; an updater that throws fails the render, and React, finding no
    error boundary, unmounts the tree.  A component that is gone has its
    updates dropped unrun. *)
Definition step (st : State) (ev : Event) : option State :=
  match ev with
  | Mount throws =>
      if mounted st then None
      else Some (connect throws
                   (mkState true (isConnected st) (progress st) (wsRef st)
                            (reconnectTimeoutRef st) (sockets st) (timers st)
                            (timer_count st)))
  | Opened ws =>
      match sockets st !! ws with
      | Some CONNECTING => Some (onopen (set_socket ws OPEN st))
      | _ => None
      end
  | Message ws frame now =>
      match sockets st !! ws with
      | Some OPEN | Some CLOSING =>
          match onmessage frame now (progress st) with
          | Normal m => Some (setProgress m st)
          | Throw _ => if mounted st then Some (unmount st) else Some st
          end
      | _ => None
      end
  | Errored ws =>
      match sockets st !! ws with
      | Some CLOSED | None => None
      | Some _ => Some st
      end
  | Closed ws =>
      match sockets st !! ws with
      | Some CLOSED | None => None
      | Some _ => Some (onclose (set_socket ws CLOSED st))
      end
  | TimerFired tid throws =>
      if decide (tid ∈ (timers st).*1)
      then Some (connect throws (clearTimeout tid st))
      else None
  | Unmount =>
      if mounted st then Some (unmount st) else None
  end.

(** A run of events, from left to right. *)
Fixpoint run (st : State) (evs : list Event) : option State :=
  match evs with
  | [] => Some st
  | ev :: rest =>
      match step st ev with
      | Some st' => run st' rest
      | None => None
      end
  end.

(** ** A stream of frames *)

(** The frames of a connection with the clock reading at each, handled in
    arrival order: React applies the queued updaters one after the other.
    The first updater that throws ends it: the map is gone with the hook. *)
Fixpoint feed (frames : list (Frame * Z)) (prev : gmap string ProgressEntry)
    : completion (gmap string ProgressEntry) :=
  match frames with
  | [] => Normal prev
  | f :: rest =>
      match onmessage f.1 f.2 prev with
      | Normal m => feed rest m
      | Throw e => Throw e
      end
  end.

(** The key a frame writes, if it writes one. *)
Definition frame_key (f : Frame * Z) : option string :=
  match f.1 with
  | Malformed => None
  | Parsed data =>
      match id ← get_prop data "download_id"; property_key id with
      | Normal key => Some key
      | Throw _ => None
      end
  end.

(** The frames of a run of events. *)
Definition frames_of (evs : list Event) : list Frame :=
  omap (fun ev => match ev with Message _ frame _ => Some frame | _ => None end) evs.

(** The sockets that are not closed. *)
Definition live (l : list ReadyState) : list ReadyState :=
  filter (fun rs => rs ≠ CLOSED) l.

(** No tear-down among the events. *)
Definition stays_mounted (evs : list Event) : Prop :=
  Forall (fun ev => ev ≠ Unmount) evs.

(** The shape of a mounted hook: every socket but the last is closed, and
    either the last one is live, remembered in [wsRef], with no time-out
    pending, or all are closed and the one pending time-out is the one
    [reconnectTimeoutRef] remembers. *)
Definition one_connection (st : State) : Prop :=
  mounted st = true
  ∧ ((∃ n rs, sockets st = replicate n CLOSED ++ [rs] ∧ rs ≠ CLOSED
              ∧ wsRef st = Some n ∧ timers st = [])
     ∨ (∃ n tid, sockets st = replicate n CLOSED
                 ∧ timers st = [(tid, RECONNECT_DELAY)]
                 ∧ reconnectTimeoutRef st = Some tid)).

End Hook.

(* ===================================================================== *)
(** * The HTTP client *)
(* ===================================================================== *)

Module Api.
Import Js.
Local Open Scope Z_scope.

(** The body of a response: a JSON document, or anything else. *)
Inductive Body : Type :=
| JsonBody (doc : json)
| RawBody (raw : string).

Record Response : Type := mkResponse {
  status : Z;
  statusText : string;
  content_type : option string;
  body : Body
}.

(** [response.ok]. *)
Definition ok (r : Response) : bool := (200 <=? status r) && (status r <=? 299).

(** [response.json()]: a body that is no JSON text is refused with the
    parser's [SyntaxError]. *)
Definition json_ (r : Response) : completion json :=
  match body r with
  | JsonBody doc => Normal doc
  | RawBody _ => Throw (Native "SyntaxError")
  end.

(** What one [fetch] does: answer or fail after some milliseconds, or stay
    pending for ever. *)
Inductive FetchOutcome : Type :=
| Responds (after : Z) (r : Response)
| Rejects (after : Z) (e : JsError)
| NeverSettles.

(** The value a call resolves to. *)
Inductive Payload : Type :=
| PJson (data : json)
| PBlob (b : Body)
| PUndefined.

(** How a call ends. *)
Inductive Outcome : Type :=
| Returned (p : Payload)
| Thrown (e : JsError)
| Hangs.

(** What a call does on the way: network requests and back-off sleeps. *)
Inductive Io : Type :=
| Fetched
| Slept (ms : Z).

#[export] Instance Io_eq_dec : EqDecision Io.
Proof. solve_decision. Defined.

(** The options [request] reads; [None] is an absent field. *)
Record Options : Type := mkOptions {
  timeout : option Z;
  retries : option Z
}.

(** [options.timeout || 10000]. *)
Definition timeout_of (options : Options) : Z :=
  match timeout options with
  | Some t => if t =? 0 then 10000 else t
  | None => 10000
  end.

(** [options.retries || 0]. *)
Definition maxRetries_of (options : Options) : Z :=
  match retries options with
  | Some n => n
  | None => 0
  end.

(** [`HTTP ${response.status}: ${response.statusText}`]. *)
Definition http_message (r : Response) : string :=
  "HTTP " +:+ pretty (status r) +:+ ": " +:+ statusText r.

(** [contentType && contentType.indexOf("application/json") !== -1]. *)
Definition is_json_content (ct : option string) : bool :=
  match ct with
  | Some s =>
      match String.index 0 "application/json" s with
      | Some _ => negb (String.eqb s "")
      | None => false
      end
  | None => false
  end.

(** The statements of the [try] block that follow a settled [fetch].
    [new Error(m)] coerces [m] to a string, which can throw. *)
Definition handle_response (r : Response) : completion Payload :=
  if negb (ok r) then
    if (400 <=? status r) && (status r <? 500) then
      let error :=
        match json_ r with
        | Normal doc => doc
        | Throw _ => JObj [("detail", JStr (statusText r))]
        end in
      detail ← get_prop error "detail";
      if truthy detail
      then message ← String_ detail; Throw (new_Error message)
      else Throw (new_Error (http_message r))
    else Throw (new_Error (http_message r))
  else if is_json_content (content_type r) then
    data ← json_ r;
    Normal (PJson data)
  else Normal (PBlob (body r)).

(** The [while (attempt <= maxRetries)] loop.  [n] counts the iterations
    the guard still allows, [maxRetries + 1 - attempt]; [script] gives the
    outcome of each [fetch] in turn, and an exhausted script is a network
    that answers no more. *)
Fixpoint request_loop (maxRetries : Z) (n : nat) (attempt : Z)
    (script : list FetchOutcome) : Outcome * list Io :=
  match n with
  | O => (Returned PUndefined, [])
  | S n' =>
      let catch (error : JsError) (rest : list FetchOutcome) :=
        let attempt := attempt + 1 in
        if attempt >? maxRetries then (Thrown error, [Fetched])
        else
          let '(out, io) := request_loop maxRetries n' attempt rest in
          (out, Fetched :: Slept (1000 * 2 ^ (attempt - 1)) :: io) in
      match script with
      | [] | NeverSettles :: _ => (Hangs, [Fetched])
      | Rejects _ e :: rest => catch e rest
      | Responds _ r :: rest =>
          match handle_response r with
          | Normal p => (Returned p, [Fetched])
          | Throw e => catch e rest
          end
      end
  end.

(** [APIClient.request]. *)
Definition request (options : Options) (script : list FetchOutcome) : Outcome * list Io :=
  let maxRetries := maxRetries_of options in
  request_loop maxRetries (Z.to_nat (maxRetries + 1)) 0 script.

(** The back-off sleeps of a call, in order. *)
Definition sleeps (io : list Io) : list Z :=
  omap (fun e => match e with Slept ms => Some ms | Fetched => None end) io.

(** The number of network requests of a call. *)
Definition fetches (io : list Io) : nat :=
  length (filter (fun e => e = Fetched) io).

(** *** Vocabulary of the retry properties *)

(** A 5xx answer. *)
Definition server_error (r : Response) : bool := (500 <=? status r) && (status r <=? 599).

(** A 4xx answer. *)
Definition client_error (r : Response) : bool := (400 <=? status r) && (status r <=? 499).

(** The failures the specification calls transient: a 5xx answer, or a
    [fetch] that rejects (network failure, abort). *)
Definition transient (o : FetchOutcome) : Prop :=
  match o with
  | Responds _ r => server_error r = true
  | Rejects _ _ => True
  | NeverSettles => False
  end.

(** The error a transient failure raises in the [try] block. *)
Definition failure_of (o : FetchOutcome) : JsError :=
  match o with
  | Responds _ r => new_Error (http_message r)
  | Rejects _ e => e
  | NeverSettles => new_Error ""
  end.

(** The trace of a call that fails [k] times, counting attempts from
    [first], and then makes one more request: before retry number [i]
    it sleeps [1000 * 2^(i-1)] ms. *)
Definition retry_io_from (first : Z) (k : nat) : list Io :=
  flat_map (fun i => [Fetched; Slept (1000 * 2 ^ (first + Z.of_nat i))]) (seq 0 k)
  ++ [Fetched].

Definition retry_io (k : nat) : list Io := retry_io_from 0 k.

(** *** Sample answers *)

Definition not_found_404 : Response :=
  mkResponse 404 "Not Found" (Some "application/json")
             (JsonBody (JObj [("detail", JStr "not found")])).

Definition unavailable_503 : Response :=
  mkResponse 503 "Service Unavailable" (Some "text/plain") (RawBody "try later").

Definition ok_200 : Response :=
  mkResponse 200 "OK" (Some "application/json; charset=utf-8")
             (JsonBody (JObj [("id", JNum 7)])).

(** *** The exported [api] object *)

(** The namespaces of [api] and the methods of each. *)
Definition api : list (string * list string) :=
  [ ("downloads", ["single"; "status"; "cancel"; "scan"; "bulk"; "info"; "play";
                   "openFolder"; "getAllVideos"]);
    ("dashboard", ["stats"; "activity"; "channels"]);
    ("channels", ["list"; "get"; "delete"; "sync"]);
    ("accounts", ["list"; "create"; "delete"; "sync"]);
    ("auth", ["authorize"; "callback"]);
    ("workflows", ["list"; "create"; "update"; "delete"; "execute"; "history";
                   "getExecutions"; "getExecutionDetails"; "cancel"; "deleteExecution"]);
    ("watermarks", ["listVideos"; "apply"; "preview"; "download"; "openFolder"]);
    ("storage", ["info"; "clean"]) ].

(** Evaluating [api.ns.method(...)] up to the call: reading a method of a
    namespace that does not exist throws, and so does calling a method
    that does not exist. *)
Definition api_method (ns method : string) : completion unit :=
  match list_find (fun entry => entry.1 = ns) api with
  | None =>
      Throw (TypeError ("Cannot read properties of undefined (reading '"
                          +:+ method +:+ "')"))
  | Some (_, (_, methods)) =>
      if decide (method ∈ methods) then Normal tt
      else Throw (TypeError ("api." +:+ ns +:+ "." +:+ method +:+ " is not a function"))
  end.

End Api.

(* ===================================================================== *)
(** * Execution progress: applying stream events *)
(* ===================================================================== *)

Module Progress.

(** One entry of the video array.  [title] and [thumbnail_url] stand for
    the fields no handler writes; [None] is an absent (or null) field. *)
Record VideoProgress : Type := mkVideo {
  title : string;
  thumbnail_url : option string;
  status : string;
  current_stage : option string;
  stages : option (gmap string string);
  error : option string
}.

(** The frames of the workflow event stream, [{ type, data }], by [type].
    The [error] of [video_failed] is [None] when the frame has none. *)
Inductive StreamEvent : Type :=
| videos_scanned (execution_id : Z) (videos : list VideoProgress)
| video_started (execution_id : Z) (video_index : Z)
| video_stage_update (execution_id : Z) (video_index : Z) (stage status : string)
| video_completed (execution_id : Z) (video_index : Z)
| video_failed (execution_id : Z) (video_index : Z) (error : option string)
| workflow_completed (execution_id : Z)
| workflow_failed (execution_id : Z)
| log (execution_id : Z) (timestamp message : string)
| other (type : string) (execution_id : Z).

(** [data.execution_id]. *)
Definition execution_id_of (ev : StreamEvent) : Z :=
  match ev with
  | videos_scanned e _ | video_started e _ | video_stage_update e _ _ _
  | video_completed e _ | video_failed e _ _ | workflow_completed e
  | workflow_failed e | log e _ _ | other _ e => e
  end.

(** [data.video_index] of the four per-video events. *)
Definition video_index_of (ev : StreamEvent) : option Z :=
  match ev with
  | video_started _ i | video_stage_update _ i _ _
  | video_completed _ i | video_failed _ i _ => Some i
  | _ => None
  end.

(** ** WorkflowProgress *)

(** [{ ...v, status: s }] and its like. *)
Definition with_status (s : string) (v : VideoProgress) : VideoProgress :=
  mkVideo (title v) (thumbnail_url v) s (current_stage v) (stages v) (error v).

Definition with_current_stage (c : option string) (v : VideoProgress) : VideoProgress :=
  mkVideo (title v) (thumbnail_url v) (status v) c (stages v) (error v).

Definition with_stages (m : option (gmap string string)) (v : VideoProgress) : VideoProgress :=
  mkVideo (title v) (thumbnail_url v) (status v) (current_stage v) m (error v).

Definition with_error (e : option string) (v : VideoProgress) : VideoProgress :=
  mkVideo (title v) (thumbnail_url v) (status v) (current_stage v) (stages v) e.

(** [{ ...v.stages }]: spreading an absent map gives the empty one. *)
Definition spread (m : option (gmap string string)) : gmap string string :=
  match m with
  | Some m => m
  | None => ∅
  end.

(** [prev.map((v, idx) => idx === video_index ? f(v) : v)]. *)
Definition map_at (video_index : Z) (f : VideoProgress -> VideoProgress)
    (prev : list VideoProgress) : list VideoProgress :=
  imap (fun idx v => if decide (Z.of_nat idx = video_index) then f v else v) prev.

(** [data.execution_id === parseInt(executionId)]. *)
Definition same_execution (e : Z) (executionId : option Z) : bool :=
  bool_decide (Some e = executionId).

(** The effect that handles [lastMessage].  [executionId] is
    [parseInt] of the route parameter, [None] when that is [NaN].  The
    result is the video array and whether [loadData] was called. *)
Definition WorkflowProgress (executionId : option Z) (lastMessage : option StreamEvent)
    (videos : list VideoProgress) : list VideoProgress * bool :=
  match lastMessage with
  | None => (videos, false)
  | Some (videos_scanned e vs) =>
      if same_execution e executionId then (vs, false) else (videos, false)
  | Some (video_started e i) =>
      if same_execution e executionId
      then (map_at i (with_status "processing") videos, false)
      else (videos, false)
  | Some (video_stage_update e i stage st) =>
      if same_execution e executionId
      then (map_at i
              (fun v =>
                 with_stages (Some (<[ stage := st ]> (spread (stages v))))
                   (with_current_stage
                      (if decide (st = "running") then Some stage else current_stage v) v))
              videos, false)
      else (videos, false)
  | Some (video_completed e i) =>
      if same_execution e executionId
      then (map_at i (fun v => with_current_stage None (with_status "completed" v)) videos,
            false)
      else (videos, false)
  | Some (video_failed e i err) =>
      if same_execution e executionId
      then (map_at i (fun v => with_error err (with_status "failed" v)) videos,
            false)
      else (videos, false)
  | Some (workflow_completed e) | Some (workflow_failed e) =>
      if same_execution e executionId then (videos, true) else (videos, false)
  | Some (log _ _ _) | Some (other _ _) => (videos, false)
  end.

(** ** WorkflowExecutionDetails *)

(** The execution record, as far as the stream touches it. *)
Record Execution : Type := mkExecution {
  exec_status : string;
  execution_log : option (list string)
}.

Record Details : Type := mkDetails {
  execution : option Execution;
  scannedVideos : list VideoProgress
}.

(** [updated[video_index]]: a negative index names no element. *)
Definition at_index (video_index : Z) (l : list VideoProgress) : option VideoProgress :=
  if decide (0 ≤ video_index)%Z then l !! Z.to_nat video_index else None.

(** [const updated = [...prev]; if (updated[i]) { mutate updated[i] }].
    The entry is changed in place, so the previous array shares the change;
    the page only ever reads the array returned here. *)
Definition update_at (video_index : Z) (f : VideoProgress -> VideoProgress)
    (prev : list VideoProgress) : list VideoProgress :=
  match at_index video_index prev with
  | Some v => <[ Z.to_nat video_index := f v ]> prev
  | None => prev
  end.

(** [ws.onmessage] of the page opened on [executionId]; the handler never
    reads that id.  The result is the state and whether
    [fetchExecutionDetails] was called. *)
Definition WorkflowExecutionDetails (executionId : option Z) (message : StreamEvent)
    (st : Details) : Details * bool :=
  match message with
  | log _ timestamp msg =>
      (mkDetails
         (match execution st with
          | None => None
          | Some prev =>
              Some (mkExecution (exec_status prev)
                      (Some (default [] (execution_log prev)
                               ++ ["[" +:+ timestamp +:+ "] " +:+ msg])))
          end)
         (scannedVideos st), false)
  | videos_scanned _ vs => (mkDetails (execution st) vs, false)
  | video_started _ i =>
      (mkDetails (execution st) (update_at i (with_status "processing") (scannedVideos st)),
       false)
  | video_stage_update _ i stage s =>
      (mkDetails (execution st)
         (update_at i
            (fun v =>
               let v1 := with_current_stage (Some stage) v in
               match stages v1 with
               | Some m => with_stages (Some (<[ stage := s ]> m)) v1
               | None => v1
               end)
            (scannedVideos st)), false)
  | video_completed _ i =>
      (mkDetails (execution st)
         (update_at i (fun v => with_current_stage None (with_status "completed" v))
            (scannedVideos st)), false)
  | video_failed _ i err =>
      (mkDetails (execution st)
         (update_at i (fun v => with_error err (with_status "failed" v))
            (scannedVideos st)), false)
  | workflow_completed _ | workflow_failed _ => (st, true)
  | other _ _ => (st, false)
  end.

(** ** Streams of events and derived figures *)

(** The events of a stream reaching [WorkflowProgress] one by one, each as
    [lastMessage] in its turn. *)
Definition WorkflowProgress_stream (executionId : option Z) (evs : list StreamEvent)
    (videos : list VideoProgress) : list VideoProgress :=
  foldl (fun vs ev => (WorkflowProgress executionId (Some ev) vs).1) videos evs.

(** The frames of a socket of [WorkflowExecutionDetails], in arrival order. *)
Definition WorkflowExecutionDetails_stream (executionId : option Z)
    (evs : list StreamEvent) (st : Details) : Details :=
  foldl (fun st ev => (WorkflowExecutionDetails executionId ev st).1) st evs.

(** [videos.filter(v => v.status === 'completed').length]. *)
Definition completedCount (videos : list VideoProgress) : nat :=
  length (filter (fun v => status v = "completed") videos).

(** [videos.filter(v => v.status === 'failed').length]. *)
Definition failedCount (videos : list VideoProgress) : nat :=
  length (filter (fun v => status v = "failed") videos).

(** What the backend sends for video [i] when all goes well. *)
Definition lifecycle (e : Z) (i : nat) : list StreamEvent :=
  [ video_started e (Z.of_nat i);
    video_stage_update e (Z.of_nat i) "download" "running";
    video_completed e (Z.of_nat i) ].

(** The log lines of [(timestamp, message)] pairs. *)
Definition log_events (e : Z) (lines : list (string * string)) : list StreamEvent :=
  (fun l => log e l.1 l.2) <$> lines.

(** [`[${timestamp}] ${message}`]. *)
Definition log_line (l : string * string) : string := "[" +:+ l.1 +:+ "] " +:+ l.2.

(** *** Reading both update idioms element by element *)

(** The entry at [video_index], if there is one, goes through [f]. *)
Definition touch (video_index : Z) (f : VideoProgress -> VideoProgress)
    (l : list VideoProgress) : list VideoProgress :=
  if decide (0 ≤ video_index)%Z then alter f (Z.to_nat video_index) l else l.

(** What a per-video event does to its entry in [WorkflowProgress]. *)
Definition entry_change (ev : StreamEvent)
    : option (Z * (VideoProgress -> VideoProgress)) :=
  match ev with
  | video_started _ i => Some (i, with_status "processing")
  | video_stage_update _ i stage st =>
      Some (i, fun v =>
                 with_stages (Some (<[ stage := st ]> (spread (stages v))))
                   (with_current_stage
                      (if decide (st = "running") then Some stage else current_stage v) v))
  | video_completed _ i =>
      Some (i, fun v => with_current_stage None (with_status "completed" v))
  | video_failed _ i err =>
      Some (i, fun v => with_error err (with_status "failed" v))
  | _ => None
  end.

(** The same for [WorkflowExecutionDetails]. *)
Definition entry_change_details (ev : StreamEvent)
    : option (Z * (VideoProgress -> VideoProgress)) :=
  match ev with
  | video_stage_update _ i stage s =>
      Some (i, fun v =>
                 let v1 := with_current_stage (Some stage) v in
                 match stages v1 with
                 | Some m => with_stages (Some (<[ stage := s ]> m)) v1
                 | None => v1
                 end)
  | _ => entry_change ev
  end.

Definition is_videos_scanned (ev : StreamEvent) : bool :=
  match ev with
  | videos_scanned _ _ => true
  | _ => false
  end.

Definition is_log (ev : StreamEvent) : bool :=
  match ev with
  | log _ _ _ => true
  | _ => false
  end.




(** An entry after its [lifecycle], in [WorkflowProgress] ... *)
Definition completed_entry (v : VideoProgress) : VideoProgress :=
  mkVideo (title v) (thumbnail_url v) "completed" None
          (Some (<[ "download" := "running" ]> (spread (stages v)))) (error v).

(** ... and in [WorkflowExecutionDetails]. *)
Definition completed_entry_details (v : VideoProgress) : VideoProgress :=
  mkVideo (title v) (thumbnail_url v) "completed" None
          ((fun m => <[ "download" := "running" ]> m) <$> stages v) (error v).

(** ** Loading the snapshot in WorkflowProgress *)

(** The state of the page. *)
Record Page : Type := mkPage {
  page_execution : option Execution;
  page_workflow : option string;
  page_videos : list VideoProgress;
  page_loading : bool
}.

(** What the two requests of [loadData] answer: the execution with the
    [video_progress] of its results, if any, and the workflow. *)
Record Snapshot : Type := mkSnapshot {
  snap_execution : Execution;
  snap_video_progress : option (list VideoProgress);
  snap_workflow : string
}.

(** [loadData]: the page after the call and the [api] methods that were
    called.  [answers] is what the backend would reply, [None] for a
    rejected request. *)
Definition loadData (answers : option Snapshot) (st : Page) : Page * list (string * string) :=
  let failed := mkPage (page_execution st) (page_workflow st) (page_videos st) false in
  match Api.api_method "executions" "get" with
  | Js.Throw _ => (failed, [])
  | Js.Normal _ =>
      match Api.api_method "workflows" "get" with
      | Js.Throw _ => (failed, [("executions", "get")])
      | Js.Normal _ =>
          match answers with
          | None => (failed, [("executions", "get"); ("workflows", "get")])
          | Some snap =>
              (mkPage (Some (snap_execution snap)) (Some (snap_workflow snap))
                      (default (page_videos st) (snap_video_progress snap)) false,
               [("executions", "get"); ("workflows", "get")])
          end
      end
  end.

End Progress.

(* ===================================================================== *)
(** * The workflow editor graph *)
(* ===================================================================== *)

Module Builder.

Record Position : Type := mkPosition { x : Z; y : Z }.

(** [node.data]; a flag that was never written is [None]. *)
Record NodeData : Type := mkData {
  label : string;
  config : gmap string Js.json;
  isStart : option bool;
  isActive : option bool
}.

Record Node : Type := mkNode {
  id : string;
  type : string;
  position : Position;
  data : NodeData
}.

Record Edge : Type := mkEdge {
  edge_id : string;
  source : string;
  target : string
}.

(** What the canvas hands to [onConnect]; the nodes of this editor have one
    unnamed handle on each side. *)
Record Connection : Type := mkConnection {
  conn_source : string;
  conn_target : string
}.

Record Graph : Type := mkGraph {
  nodes : list Node;
  edges : list Edge;
  selectedNode : option Node
}.

(** [initialNodes], [initialEdges], no selection. *)
Definition empty : Graph := mkGraph [] [] None.

(** *** The two functions taken from the canvas library *)

(** [getIncomers(node, nodes, edges)]: the nodes that are the source of an
    edge into [node]. *)
Definition getIncomers (node : Node) (nodes : list Node) (edges : list Edge) : list Node :=
  if decide (id node = "") then []
  else
    let incomersIds := source <$> filter (fun e => target e = id node) edges in
    filter (fun n => id n ∈ incomersIds) nodes.

(** [addEdge(params, edges)]: nothing is added without both ends, nor when
    the same connection is already there; a new edge is appended under a
    generated id. *)
Definition addEdge (params : Connection) (eds : list Edge) : list Edge :=
  if decide (conn_source params = "" ∨ conn_target params = "") then eds
  else if decide (Exists (fun e => source e = conn_source params
                                   ∧ target e = conn_target params) eds) then eds
  else eds ++ [mkEdge ("xy-edge__" +:+ conn_source params +:+ "-" +:+ conn_target params)
                      (conn_source params) (conn_target params)].

(** *** The editor's own operations *)

(** [c.toUpperCase()] on an ASCII letter. *)
Definition toUpperCase (c : Ascii.ascii) : Ascii.ascii :=
  let n := Ascii.nat_of_ascii c in
  if decide (97 ≤ n ≤ 122) then Ascii.ascii_of_nat (n - 32) else c.

(** [type.charAt(0).toUpperCase() + type.slice(1)]. *)
Definition capitalize (type : string) : string :=
  match type with
  | EmptyString => EmptyString
  | String c rest => String (toUpperCase c) rest
  end.

(** The node both ways of adding build; [now] is [Date.now()]. *)
Definition newNode (type : string) (position : Position) (now : Z) : Node :=
  mkNode (type +:+ "-" +:+ pretty now) type position
         (mkData (capitalize type) ∅ None None).

(** [onDrop]: a drop that carries no node type is ignored. *)
Definition onDrop (type : string) (position : Position) (now : Z) (g : Graph) : Graph :=
  if decide (type = "") then g
  else mkGraph (nodes g ++ [newNode type position now]) (edges g) (selectedNode g).

(** The click handler of a palette button. *)
Definition paletteAdd (type : string) (now : Z) (g : Graph) : Graph :=
  let position := mkPosition 250 (Z.of_nat (length (nodes g)) * 100 + 50) in
  mkGraph (nodes g ++ [newNode type position now]) (edges g) (selectedNode g).

(** [onConnect]. *)
Definition onConnect (params : Connection) (g : Graph) : Graph :=
  mkGraph (nodes g) (addEdge params (edges g)) (selectedNode g).

(** [handleDeleteNode]. *)
Definition handleDeleteNode (nodeId : string) (g : Graph) : Graph :=
  mkGraph
    (filter (fun node => id node ≠ nodeId) (nodes g))
    (filter (fun edge => source edge ≠ nodeId ∧ target edge ≠ nodeId) (edges g))
    (match selectedNode g with
     | Some sel => if decide (id sel = nodeId) then None else Some sel
     | None => None
     end).

(** The effect that recomputes [isStart], run after a change of the edges
    or of the number of nodes. *)
Definition recomputeStart (g : Graph) : Graph :=
  mkGraph
    ((fun node =>
        let incoming := getIncomers node (nodes g) (edges g) in
        let isStart' := bool_decide (length incoming = 0) in
        if decide (isStart (data node) ≠ Some isStart')
        then mkNode (id node) (type node) (position node)
                    (mkData (label (data node)) (config (data node))
                            (Some isStart') (isActive (data node)))
        else node) <$> nodes g)
    (edges g) (selectedNode g).

(** The user's actions on the graph. *)
Inductive Op : Type :=
| Drop (type : string) (position : Position) (now : Z)
| Palette (type : string) (now : Z)
| Connect (params : Connection)
| DeleteNode (nodeId : string).

(** An action followed by the recomputation it triggers. *)
Definition apply (op : Op) (g : Graph) : Graph :=
  recomputeStart
    match op with
    | Drop type position now => onDrop type position now g
    | Palette type now => paletteAdd type now g
    | Connect params => onConnect params g
    | DeleteNode nodeId => handleDeleteNode nodeId g
    end.

(** Any sequence of actions, from left to right. *)
Definition applyAll (ops : list Op) (g : Graph) : Graph :=
  fold_left (fun g op => apply op g) ops g.

(** The connections the canvas can hand over: both ends are nodes on it. *)
Definition drawn_on (g : Graph) (op : Op) : bool :=
  match op with
  | Connect params =>
      bool_decide (conn_source params ∈ id <$> nodes g)
      && bool_decide (conn_target params ∈ id <$> nodes g)
  | _ => true
  end.

(** A session: every connection is drawn between nodes present when it is
    made; [None] when some connection is not. *)
Fixpoint session (ops : list Op) (g : Graph) : option Graph :=
  match ops with
  | [] => Some g
  | op :: rest => if drawn_on g op then session rest (apply op g) else None
  end.

(** *** The invariants *)

(** Both ends of every edge are ids of nodes of the graph. *)
Definition no_dangling (g : Graph) : Prop :=
  ∀ e, e ∈ edges g → source e ∈ id <$> nodes g ∧ target e ∈ id <$> nodes g.

(** No edge has an empty end ([addEdge] refuses them). *)
Definition edges_have_ends (g : Graph) : Prop :=
  ∀ e, e ∈ edges g → source e ≠ "" ∧ target e ≠ "".

(** Every node is flagged as a start node exactly when no edge enters it. *)
Definition start_flags_exact (g : Graph) : Prop :=
  ∀ n, n ∈ nodes g →
    isStart (data n) = Some (bool_decide (Forall (fun e => target e ≠ id n) (edges g))).

(** *** The rest of the editor *)

(** The frames of the workflow event stream the editor listens to. *)
Inductive CanvasEvent : Type :=
| canvas_log (entry : Js.json)
| node_started (node_id : string)
| node_completed (node_id : string)
| workflow_completed
| workflow_failed
| canvas_other (type : string).

(** The editor: the graph and the state around it. *)
Record Editor : Type := mkEditor {
  graph : Graph;
  logs : list Js.json;
  isRunning : bool;
  currentWorkflow : option Z;
  workflowName : string
}.

(** [{ ...node, data: { ...node.data, isActive: b } }]. *)
Definition set_active (b : bool) (node : Node) : Node :=
  mkNode (id node) (type node) (position node)
         (mkData (label (data node)) (config (data node)) (isStart (data node)) (Some b)).

(** [ws.onmessage] of the editor. *)
Definition canvas_onmessage (message : CanvasEvent) (ed : Editor) : Editor :=
  let g := graph ed in
  match message with
  | canvas_log entry =>
      mkEditor g (logs ed ++ [entry]) (isRunning ed) (currentWorkflow ed) (workflowName ed)
  | node_started node_id =>
      mkEditor
        (mkGraph ((fun node => if decide (id node = node_id) then set_active true node
                               else node) <$> nodes g)
                 (edges g) (selectedNode g))
        (logs ed) (isRunning ed) (currentWorkflow ed) (workflowName ed)
  | node_completed node_id =>
      mkEditor
        (mkGraph ((fun node => if decide (id node = node_id) then set_active false node
                               else node) <$> nodes g)
                 (edges g) (selectedNode g))
        (logs ed) (isRunning ed) (currentWorkflow ed) (workflowName ed)
  | workflow_completed | workflow_failed =>
      mkEditor (mkGraph (set_active false <$> nodes g) (edges g) (selectedNode g))
               (logs ed) false (currentWorkflow ed) (workflowName ed)
  | canvas_other _ => ed
  end.

(** The frames of the socket, in arrival order. *)
Definition canvas_stream (evs : list CanvasEvent) (ed : Editor) : Editor :=
  foldl (fun ed ev => canvas_onmessage ev ed) ed evs.

(** [workflowData] of [handleSave]: the nodes with [isActive] forced to
    [false], and the edges. *)
Definition workflowData (g : Graph) : list Node * list Edge :=
  (set_active false <$> nodes g, edges g).

(** The request [handleSave] sends. *)
Inductive SaveCall : Type :=
| save_update (workflow : Z) (name : string) (workflow_data : list Node * list Edge)
| save_create (name description : string) (workflow_data : list Node * list Edge)
              (is_active : bool).

(** [handleSave], up to the request. *)
Definition handleSave (ed : Editor) : SaveCall :=
  match currentWorkflow ed with
  | Some w => save_update w (workflowName ed) (workflowData (graph ed))
  | None => save_create (workflowName ed) "Created via Workflow Builder"
                        (workflowData (graph ed)) true
  end.

(** [{ ...node, data: { ...node.data, config: { ...config, [key]: value } } }]. *)
Definition with_config (key : string) (value : Js.json) (node : Node) : Node :=
  mkNode (id node) (type node) (position node)
         (mkData (label (data node)) (<[ key := value ]> (config (data node)))
                 (isStart (data node)) (isActive (data node))).

(** [updateNodeConfig]: every node with the id of the selection is updated,
    and the selection is set to the updated node (to the last one when
    several nodes share the id). *)
Definition updateNodeConfig (key : string) (value : Js.json) (g : Graph) : Graph :=
  match selectedNode g with
  | None => g
  | Some sel =>
      mkGraph
        ((fun node => if decide (id node = id sel) then with_config key value node
                      else node) <$> nodes g)
        (edges g)
        (match last (filter (fun node => id node = id sel) (nodes g)) with
         | Some node => Some (with_config key value node)
         | None => Some sel
         end)
  end.

(** [onNodeClick]. *)
Definition onNodeClick (node : Node) (g : Graph) : Graph :=
  mkGraph (nodes g) (edges g) (Some node).

(** [handleNew], on the graph. *)
Definition handleNew (g : Graph) : Graph := mkGraph [] [] (selectedNode g).

(** Only the [isActive] flag may differ. *)
Definition same_but_active (n n' : Node) : Prop :=
  id n' = id n ∧ type n' = type n ∧ position n' = position n
  ∧ label (data n') = label (data n) ∧ config (data n') = config (data n)
  ∧ isStart (data n') = isStart (data n).

(** Only the [isStart] flag may differ. *)
Definition same_but_start (n n' : Node) : Prop :=
  id n' = id n ∧ type n' = type n ∧ position n' = position n
  ∧ label (data n') = label (data n) ∧ config (data n') = config (data n)
  ∧ isActive (data n') = isActive (data n).

(** What every state of a session satisfies. *)
Definition consistent (g : Graph) : Prop :=
  no_dangling g ∧ edges_have_ends g ∧ start_flags_exact g.

End Builder.

(* ===================================================================== *)
(** * The channel scanner's selection *)
(* ===================================================================== *)

Module Scanner.
Section Selection.

(** [K] is the type of the values that identify a video (database ids,
    URLs), compared as [includes] and [!==] compare them. *)
Context {K : Type} `{EqDecision K}.

(** A scanned video: its id, [None] when absent or falsy, and its URL. *)
Record ScannedVideo : Type := mkScanned {
  video_id : option K;
  video_url : K
}.

(** [v.id || v.url]. *)
Definition key (v : ScannedVideo) : K := default (video_url v) (video_id v).

(** [toggleVideo]. *)
Definition toggleVideo (videoId : K) (prev : list K) : list K :=
  if decide (videoId ∈ prev)
  then filter (fun id => id ≠ videoId) prev
  else prev ++ [videoId].

(** [toggleSelectAll]. *)
Definition toggleSelectAll (selectedVideos : list K) (videos : list ScannedVideo) : list K :=
  if decide (length selectedVideos = length videos) then [] else key <$> videos.

(** [handleDeleteSelected]: the videos and the selection afterwards. *)
Definition handleDeleteSelected (selectedVideos : list K) (videos : list ScannedVideo)
    : list ScannedVideo * list K :=
  (filter (fun v => key v ∉ selectedVideos) videos, []).

(** The URLs [handleBulkDownload] sends. *)
Definition selectedUrls (selectedVideos : list K) (videos : list ScannedVideo) : list K :=
  video_url <$> filter (fun v => key v ∈ selectedVideos) videos.

End Selection.
Arguments ScannedVideo K : clear implicits.
End Scanner.

(* ===================================================================== *)
(** * Durations *)
(* ===================================================================== *)

Module Format.
Local Open Scope Z_scope.

(** [s.padStart(2, '0')]. *)
Definition padStart2 (s : string) : string :=
  match String.length s with
  | O => "00"
  | S O => "0" +:+ s
  | _ => s
  end.

(** [formatDuration] of the execution details page; [None] is an absent
    duration.  [%] is the remainder that takes the sign of the dividend. *)
Definition formatDuration (seconds : option Z) : string :=
  match seconds with
  | None => "N/A"
  | Some seconds =>
      if seconds =? 0 then "N/A"
      else
        let hours := seconds / 3600 in
        let minutes := Z.rem seconds 3600 / 60 in
        let secs := Z.rem seconds 60 in
        if 0 <? hours
        then pretty hours +:+ ":" +:+ padStart2 (pretty minutes) +:+ ":"
             +:+ padStart2 (pretty secs)
        else pretty minutes +:+ ":" +:+ padStart2 (pretty secs)
  end.

(** [formatDuration] of the single downloader. *)
Definition formatDuration_single (seconds : option Z) : string :=
  match seconds with
  | None => "Unknown"
  | Some seconds =>
      if seconds =? 0 then "Unknown"
      else
        let min := seconds / 60 in
        let sec := Z.rem seconds 60 in
        pretty min +:+ ":" +:+ padStart2 (pretty sec)
  end.

End Format.

(* ===================================================================== *)
(** * Properties of the progress socket *)
(* ===================================================================== *)

Section HookFacts.
Import Js Hook.

Example to_string_array :
  to_string (JArr [JNum 1; JNull; JStr "a"; JNum (-20)]) = Normal "1,,a,-20".
Proof. vm_compute. reflexivity. Qed.





Lemma null_or_not (data : json) : data = JNull ∨ data ≠ JNull.
Proof. destruct data; (by left) || (by right). Qed.

Lemma get_prop_not_null (data : json) (k : string) :
  data ≠ JNull → get_prop data k = Normal (prop_of data k).
Proof. destruct data; simpl; congruence. Qed.

(** On a document other than [null] whose [download_id] gives a key the
    updater is one map insertion. *)
Lemma progress_updater_insert (data : json) (now : Z) (prev : gmap string ProgressEntry)
    (key : string) :
  data ≠ JNull → property_key (prop_of data "download_id") = Normal key →
  progress_updater data now prev =
    Normal (<[ key := mkEntry (prop_of data "download_id") (prop_of data "progress")
                              (prop_of data "status") (prop_of data "message") now ]> prev).
Proof.
  intros Hnn Hkey. unfold progress_updater.
  rewrite !get_prop_not_null by assumption. simpl. rewrite Hkey. reflexivity.
Qed.

(** When the key cannot be computed the updater throws what the coercion
    throws. *)
Lemma progress_updater_throws (data : json) (now : Z) (prev : gmap string ProgressEntry)
    (e : JsError) :
  data ≠ JNull → property_key (prop_of data "download_id") = Throw e →
  progress_updater data now prev = Throw e.
Proof.
  intros Hnn Hkey. unfold progress_updater.
  rewrite !get_prop_not_null by assumption. simpl. rewrite Hkey. reflexivity.
Qed.

(** A frame that does not parse leaves the map as it was. *)
Lemma onmessage_malformed (now : Z) (prev : gmap string ProgressEntry) :
  onmessage Malformed now prev = Normal prev.
Proof. reflexivity. Qed.




(** A frame whose [download_id] is an object with a [toString] field parses
    as well, and stores nothing either. *)
Lemma onmessage_shadowed_toString_stores_nothing :
  ∃ e, onmessage (Parsed (JObj [("download_id", JObj [("toString", JNum 0)])])) 1700 ∅
       = Throw e
       ∧ name e = "TypeError".
Proof. eexists. split; reflexivity. Qed.

(** The returned object has the four fields of the [return] statement. *)
Lemma useWebSocket_fields (isConnected : bool) (progress : gmap string ProgressEntry) :
  (useWebSocket isConnected progress).*1
  = ["isConnected"; "progress"; "getProgress"; "clearProgress"].
Proof. reflexivity. Qed.

Lemma useWebSocket_getProgress (isConnected : bool) (progress : gmap string ProgressEntry) :
  ∃ f, destructure "getProgress" (useWebSocket isConnected progress) = Some (FGetProgress f)
       ∧ ∀ key, f key = getProgress progress key.
Proof. eexists. split; [reflexivity |]. reflexivity. Qed.

(** C1: the object [useWebSocket] returns has no [lastMessage] field, in
    any state of the hook, so a consumer that destructures [lastMessage]
    reads [undefined].  A [video_started] frame for execution 42 ends up in
    the progress map under ["undefined"], and the message effect of
    [WorkflowProgress], which gets no message, leaves its videos alone. *)
Theorem useWebSocket_returns_no_lastMessage :
  (∀ (isConnected : bool) (progress : gmap string ProgressEntry),
     destructure "lastMessage" (useWebSocket isConnected progress) = None)
  ∧ (let frame :=
       Parsed (JObj [("type", JStr "video_started");
                     ("data", JObj [("execution_id", JNum 42); ("video_index", JNum 0)])]) in
     ∃ st,
       run initial [Mount false; Opened 0; Message 0 frame 1700] = Some st
       ∧ dom (progress st) = {[ "undefined" ]}
       ∧ destructure "lastMessage" (useWebSocket (isConnected st) (progress st)) = None)
  ∧ (∀ executionId videos,
       Progress.WorkflowProgress executionId None videos = (videos, false)).
Proof.
  split; [reflexivity |]. split; [| reflexivity].
  eexists. split; [reflexivity |]. split; [| reflexivity].
  simpl. rewrite dom_insert_L, dom_empty_L. set_solver.
Qed.

(** Every close, of whatever socket and in whatever state, arms exactly one
    new time-out, and its delay is [RECONNECT_DELAY] whatever came before. *)
Lemma close_arms_one_reconnect (st st' : State) (ws : nat) :
  step st (Closed ws) = Some st' →
  timers st' = timers st ++ [(S (timer_count st), 3000%Z)]
  ∧ reconnectTimeoutRef st' = Some (S (timer_count st))
  ∧ sockets st' = <[ ws := CLOSED ]> (sockets st).
Proof.
  unfold step. destruct (sockets st !! ws) as [[]|] eqn:Hs; intros [= <-];
    unfold onclose, setIsConnected, set_socket; simpl;
    destruct (mounted st); simpl; auto.
Qed.

(** The armed time-out, when it fires, opens the next socket. *)
Lemma timer_fires_connect (st st' : State) (tid : nat) :
  step st (TimerFired tid false) = Some st' →
  sockets st' = sockets st ++ [CONNECTING] ∧ wsRef st' = Some (length (sockets st)).
Proof.
  unfold step. case_decide; [| discriminate]. intros [= <-]. simpl. auto.
Qed.

(** After any close the armed time-out can fire and a fresh socket is
    connecting, so the cycle close, wait, connect can go round again, with
    the same delay each time. *)
Lemma close_then_timer_reconnects (st : State) (ws : nat) (rs : ReadyState) :
  sockets st !! ws = Some rs → rs ≠ CLOSED →
  ∃ st1 st2,
    step st (Closed ws) = Some st1
    ∧ timers st1 = timers st ++ [(S (timer_count st), RECONNECT_DELAY)]
    ∧ step st1 (TimerFired (S (timer_count st)) false) = Some st2
    ∧ wsRef st2 = Some (length (sockets st))
    ∧ sockets st2 !! length (sockets st) = Some CONNECTING.
Proof.
  intros Hs Hrs.
  assert (Hstep : step st (Closed ws) = Some (onclose (set_socket ws CLOSED st))).
  { unfold step. rewrite Hs. destruct rs; try reflexivity. contradiction. }
  eexists _, _. split; [exact Hstep |].
  assert (Htimers : timers (onclose (set_socket ws CLOSED st))
                    = timers st ++ [(S (timer_count st), RECONNECT_DELAY)]).
  { unfold onclose, setIsConnected. simpl. destruct (mounted st); reflexivity. }
  split; [exact Htimers |].
  unfold step at 1. rewrite Htimers.
  rewrite decide_True by (rewrite fmap_app; set_solver).
  split; [reflexivity |].
  assert (Hsock : sockets (setIsConnected false (set_socket ws CLOSED st))
                  = <[ ws := CLOSED ]> (sockets st)).
  { unfold setIsConnected. simpl. destruct (mounted st); reflexivity. }
  unfold connect. simpl. rewrite Hsock, length_insert. split; [reflexivity |].
  rewrite lookup_app_r by (rewrite length_insert; lia).
  rewrite length_insert, Nat.sub_diag. reflexivity.
Qed.

(** Tear-down cancels the time-out the hook remembers. *)
Lemma cleanup_cancels_timer (st : State) (tid : nat) :
  reconnectTimeoutRef st = Some tid → tid ≠ 0 → tid ∉ (timers (cleanup st)).*1.
Proof.
  intros Href Hnz. unfold cleanup. rewrite Href.
  destruct (decide (tid = 0)) as [|_]; [done |].
  assert (Hclr : tid ∉ (timers (clearTimeout tid st)).*1).
  { simpl. intros Hin. apply list_elem_of_fmap in Hin as ([t d] & -> & Hin).
    apply list_elem_of_filter in Hin as [Hne _]. simpl in Hne. done. }
  destruct (wsRef (clearTimeout tid st)) as [ws|]; [| exact Hclr].
  unfold ws_close. destruct (sockets (clearTimeout tid st) !! ws) as [[]|]; exact Hclr.
Qed.

(** Tear-down leaves the close handler on the socket: whenever the hook is
    torn down while its socket is connecting or open, the close that
    follows arms a new time-out. *)
Lemma teardown_close_rearms (st : State) (ws : nat) :
  mounted st = true → wsRef st = Some ws →
  (sockets st !! ws = Some OPEN ∨ sockets st !! ws = Some CONNECTING) →
  ∃ st1 st2 tid,
    step st Unmount = Some st1 ∧ step st1 (Closed ws) = Some st2
    ∧ mounted st2 = false ∧ (tid, 3000%Z) ∈ timers st2.
Proof.
  destruct st as [m c p w r so ti tc]. simpl. intros -> -> Hs.
  assert (Hlt : ws < length so).
  { destruct Hs as [Hs|Hs]; apply lookup_lt_Some in Hs; exact Hs. }
  unfold unmount, cleanup. simpl.
  destruct r as [tid|]; [destruct (decide (tid = 0)) |]; simpl;
    unfold ws_close; simpl;
    (destruct Hs as [Hs|Hs]; rewrite Hs;
     eexists _, _, (S tc); (split; [reflexivity |]);
     unfold step, set_socket; simpl;
     rewrite list_lookup_insert_eq by exact Hlt;
     (split; [reflexivity |]); simpl; (split; [reflexivity |]);
     set_solver).
Qed.

(** C7: a hook is mounted, its socket opens, the consumer unmounts, and the
    browser reports the close that the tear-down itself asked for.  The
    tear-down left no time-out pending and put the socket in [CLOSING]; the
    close handler, still attached, then arms a time-out of 3000 ms on the
    unmounted hook, and when it fires a second socket is opened. *)
Theorem teardown_does_not_stop_reconnects :
  ∃ st1 st2 st3 st4,
    run initial [Mount false; Opened 0] = Some st1
    ∧ step st1 Unmount = Some st2
    ∧ timers st2 = [] ∧ sockets st2 = [CLOSING]
    ∧ step st2 (Closed 0) = Some st3
    ∧ mounted st3 = false ∧ timers st3 = [(1, 3000%Z)]
    ∧ step st3 (TimerFired 1 false) = Some st4
    ∧ sockets st4 = [CLOSED; CONNECTING].
Proof.
  eexists _, _, _, _.
  repeat (split; [vm_compute; reflexivity |]).
  vm_compute. reflexivity.
Qed.

(** ** Further properties of the hook *)

(** X1: [clearProgress(k)] removes the entry under [k] and no other.
    [getProgress(k)] then answers [null], unless [k] names a member that
    every object inherits ([toString], [constructor], ...), which it answers
    instead; on a key that has no entry [clearProgress] changes nothing;
    and clearing after a frame was stored under a key that had no entry
    gives back the map of before. *)
Theorem clearProgress_removes_one_key
    (k : string) (prev : gmap string ProgressEntry) :
  clearProgress k prev !! k = None
  ∧ (k ∉ Object_prototype → getProgress (clearProgress k prev) k = None)
  ∧ (k ∈ Object_prototype → getProgress (clearProgress k prev) k = Some (Inherited k))
  ∧ (∀ k', k' ≠ k → getProgress (clearProgress k prev) k' = getProgress prev k')
  ∧ (prev !! k = None → clearProgress k prev = prev)
  ∧ (∀ data now,
       data ≠ JNull → safe_value (prop_of data "download_id") = true →
       property_key (prop_of data "download_id") = Normal k →
       prev !! k = None →
       ∃ next, onmessage (Parsed data) now prev = Normal next
               ∧ getProgress next k
                 = Some (Own (mkEntry (prop_of data "download_id") (prop_of data "progress")
                                      (prop_of data "status") (prop_of data "message") now))
               ∧ clearProgress k next = prev).
Proof.
  unfold getProgress, clearProgress.
  split; [apply lookup_delete_eq |].
  split; [intros Hk; rewrite lookup_delete_eq; by rewrite decide_False |].
  split; [intros Hk; rewrite lookup_delete_eq; by rewrite decide_True |].
  split; [intros k' Hk'; rewrite lookup_delete_ne by congruence; reflexivity |].
  split; [apply delete_id |].
  intros data now Hnn _ Hkey Hfree. eexists. split.
  - simpl. by apply progress_updater_insert.
  - split.
    + by rewrite lookup_insert_eq.
    + rewrite delete_insert_eq. by apply delete_id.
Qed.

Lemma clearProgress_removes_one_key_witness :
  JObj [("download_id", JNum 7); ("progress", JNum 40)] ≠ JNull
  ∧ safe_value (prop_of (JObj [("download_id", JNum 7); ("progress", JNum 40)])
                        "download_id") = true
  ∧ ∃ next,
      onmessage (Parsed (JObj [("download_id", JNum 7); ("progress", JNum 40)])) 1700 ∅
        = Normal next
      ∧ getProgress next "7"
        = Some (Own (mkEntry (Some (JNum 7)) (Some (JNum 40)) None None 1700))
      ∧ clearProgress "7" next = ∅.
Proof.
  split; [discriminate |]. split; [reflexivity |].
  destruct (clearProgress_removes_one_key "7" ∅) as (_ & _ & _ & _ & _ & H).
  apply (H (JObj [("download_id", JNum 7); ("progress", JNum 40)]) 1700%Z);
    [discriminate | reflexivity | reflexivity | reflexivity].
Defined.

Lemma feed_app (l1 l2 : list (Frame * Z)) (prev : gmap string ProgressEntry) :
  feed (l1 ++ l2) prev
  = match feed l1 prev with
    | Normal m => feed l2 m
    | Throw e => Throw e
    end.
Proof.
  revert prev. induction l1 as [| f l1 IH]; intros prev; [reflexivity |].
  simpl. destruct (onmessage f.1 f.2 prev) as [m | e]; [apply IH | reflexivity].
Qed.

(** Whether the updater throws depends on the frame alone. *)
Lemma updater_throws_false (frame : Frame) (now : Z) (prev : gmap string ProgressEntry) :
  updater_throws frame = false → ∃ m, onmessage frame now prev = Normal m.
Proof.
  unfold updater_throws. destruct frame as [| data]; [by eexists |]. simpl.
  destruct (null_or_not data) as [-> | Hnn]; [discriminate |].
  destruct (property_key (prop_of data "download_id")) as [key | e] eqn:Hkey.
  - intros _. eexists. by apply progress_updater_insert.
  - by rewrite (progress_updater_throws data 0 ∅ e).
Qed.

Lemma updater_throws_true (frame : Frame) (now : Z) (prev : gmap string ProgressEntry) :
  updater_throws frame = true → ∃ e, onmessage frame now prev = Throw e.
Proof.
  unfold updater_throws. destruct frame as [| data]; [discriminate |]. simpl.
  destruct (null_or_not data) as [-> | Hnn]; [by eexists |].
  destruct (property_key (prop_of data "download_id")) as [key | e] eqn:Hkey.
  - by rewrite (progress_updater_insert data 0 ∅ key).
  - intros _. exists e. by apply progress_updater_throws.
Qed.

(** A frame leaves alone every key it does not write. *)
Lemma onmessage_other_key (f : Frame * Z) (k : string) (m m' : gmap string ProgressEntry) :
  frame_key f ≠ Some k → onmessage f.1 f.2 m = Normal m' → m' !! k = m !! k.
Proof.
  destruct f as [[| data] now]; simpl; [by intros _ [= <-] |].
  unfold frame_key. simpl.
  destruct (null_or_not data) as [-> | Hnn]; [discriminate |].
  rewrite get_prop_not_null by exact Hnn. simpl.
  destruct (property_key (prop_of data "download_id")) as [key | e] eqn:Hkey.
  - intros Hk. rewrite (progress_updater_insert data now m key) by assumption.
    intros [= <-]. apply lookup_insert_ne. congruence.
  - by rewrite (progress_updater_throws data now m e).
Qed.

Lemma feed_other_keys (frames : list (Frame * Z)) (k : string) :
  ∀ prev m : gmap string ProgressEntry,
    Forall (fun f => frame_key f ≠ Some k) frames →
    feed frames prev = Normal m → m !! k = prev !! k.
Proof.
  induction frames as [| f frames IH]; intros prev m Hall Hrun; simpl in Hrun.
  - by injection Hrun as <-.
  - apply Forall_cons in Hall as [Hf Hall].
    destruct (onmessage f.1 f.2 prev) as [m1 |] eqn:Hone; [| discriminate].
    rewrite (IH m1 m Hall Hrun). by apply (onmessage_other_key f).
Qed.

(** A stream none of whose updaters throws is applied to the end. *)
Lemma feed_runs (frames : list (Frame * Z)) :
  ∀ prev : gmap string ProgressEntry,
    Forall (fun f => updater_throws f.1 = false) frames →
    ∃ m, feed frames prev = Normal m.
Proof.
  induction frames as [| f frames IH]; intros prev Hall; [by eexists |].
  apply Forall_cons in Hall as [Hf Hall]. simpl.
  destruct (updater_throws_false f.1 f.2 prev Hf) as [m1 ->]. by apply IH.
Qed.

(** After an updater that throws no later frame is applied. *)
Lemma feed_stops_at_throw (before after : list (Frame * Z)) (f : Frame * Z)
    (prev : gmap string ProgressEntry) :
  Forall (fun f => updater_throws f.1 = false) before →
  updater_throws f.1 = true →
  ∃ e, feed (before ++ f :: after) prev = Throw e.
Proof.
  intros Hbefore Hf. rewrite feed_app.
  destruct (feed_runs before prev Hbefore) as [m ->]. simpl.
  destruct (updater_throws_true f.1 f.2 m Hf) as [e ->]. by eexists.
Qed.

(** X2: over any stream of frames none of whose updaters throws (no frame
    is [null], no [download_id] an object with a [toString] field of its
    own), the numbers of the ids being integers of magnitude at most
    [2^53 - 1], every frame is applied and the progress map keeps, under
    each key, the entry of the last frame that wrote that key, with the
    clock reading of that frame; a key no frame of the stream writes keeps
    the entry it had.  Frames that do not parse write no key. *)
Theorem feed_last_frame_wins
    (before after : list (Frame * Z)) (data : json) (now : Z) (key : string)
    (prev : gmap string ProgressEntry) :
  data ≠ JNull →
  property_key (prop_of data "download_id") = Normal key →
  Forall (fun f => updater_throws f.1 = false) (before ++ after) →
  Forall (fun f => safe_frame f.1 = true) (before ++ (Parsed data, now) :: after) →
  Forall (fun f => frame_key f ≠ Some key) after →
  ∃ m : gmap string ProgressEntry,
    feed (before ++ (Parsed data, now) :: after) prev = Normal m
    ∧ getProgress m key
      = Some (Own (mkEntry (prop_of data "download_id") (prop_of data "progress")
                           (prop_of data "status") (prop_of data "message") now))
    ∧ ∀ k, Forall (fun f => frame_key f ≠ Some k) (before ++ (Parsed data, now) :: after) →
           m !! k = prev !! k ∧ getProgress m k = getProgress prev k.
Proof.
  intros Hnn Hkey Hruns _ Hafter.
  apply Forall_app in Hruns as [Hb Ha].
  destruct (feed_runs before prev Hb) as [m0 Hm0].
  pose proof (progress_updater_insert data now m0 key Hnn Hkey) as Hone.
  destruct (feed_runs after
              (<[ key := mkEntry (prop_of data "download_id") (prop_of data "progress")
                                 (prop_of data "status") (prop_of data "message") now ]> m0)
              Ha) as [m Hm].
  assert (Hrun : feed (before ++ (Parsed data, now) :: after) prev = Normal m).
  { rewrite feed_app, Hm0. simpl. rewrite Hone. exact Hm. }
  exists m. split; [exact Hrun |]. split.
  - unfold getProgress.
    rewrite (feed_other_keys after key _ m Hafter Hm), lookup_insert_eq. reflexivity.
  - intros k Hall.
    pose proof (feed_other_keys _ k prev m Hall Hrun) as Hk.
    split; [exact Hk |]. unfold getProgress. by rewrite Hk.
Qed.

Lemma feed_last_frame_wins_witness :
  let first := (Parsed (JObj [("download_id", JNum 7); ("progress", JNum 10)]), 1000%Z) in
  let noise := (Malformed, 1100%Z) in
  let other := (Parsed (JObj [("download_id", JNum 8); ("progress", JNum 55)]), 1300%Z) in
  let data := JObj [("download_id", JNum 7); ("progress", JNum 90)] in
  data ≠ JNull
  ∧ property_key (prop_of data "download_id") = Normal "7"
  ∧ Forall (fun f => updater_throws f.1 = false) ([first; noise] ++ [other; noise])
  ∧ Forall (fun f => safe_frame f.1 = true)
           ([first; noise] ++ (Parsed data, 1200%Z) :: [other; noise])
  ∧ Forall (fun f => frame_key f ≠ Some "7") [other; noise]
  ∧ ∃ m : gmap string ProgressEntry,
      feed ([first; noise] ++ (Parsed data, 1200%Z) :: [other; noise]) ∅ = Normal m
      ∧ getProgress m "7"
        = Some (Own (mkEntry (Some (JNum 7)) (Some (JNum 90)) None None 1200)).
Proof.
  intros first noise other data.
  assert (Hafter : Forall (fun f => frame_key f ≠ Some "7") [other; noise])
    by (repeat constructor; discriminate).
  assert (Hruns : Forall (fun f => updater_throws f.1 = false)
                         ([first; noise] ++ [other; noise]))
    by (repeat constructor).
  assert (Hsafe : Forall (fun f => safe_frame f.1 = true)
                         ([first; noise] ++ (Parsed data, 1200%Z) :: [other; noise]))
    by (repeat constructor).
  split; [discriminate |]. split; [reflexivity |]. split; [exact Hruns |].
  split; [exact Hsafe |]. split; [exact Hafter |].
  destruct (feed_last_frame_wins [first; noise] [other; noise] data 1200 "7" ∅)
    as (m & Hrun & Hget & _);
    [discriminate | reflexivity | exact Hruns | exact Hsafe | exact Hafter |].
  exists m. split; [exact Hrun | exact Hget].
Defined.

Lemma live_closed (n : nat) : live (replicate n CLOSED) = [].
Proof.
  unfold live. induction n as [| n IH]; [reflexivity |]. simpl.
  rewrite filter_cons_False by (intros H; by apply H). exact IH.
Qed.

Lemma live_last (n : nat) (rs : ReadyState) :
  rs ≠ CLOSED → live (replicate n CLOSED ++ [rs]) = [rs].
Proof.
  intros Hrs. unfold live. rewrite filter_app. fold (live (replicate n CLOSED)).
  rewrite live_closed. simpl. by rewrite filter_cons_True.
Qed.

Lemma lookup_closed_prefix (n ws : nat) (rs rs' : ReadyState) :
  (replicate n CLOSED ++ [rs]) !! ws = Some rs' → rs' ≠ CLOSED → ws = n ∧ rs' = rs.
Proof.
  intros Hl Hne. destruct (decide (ws < n)) as [Hlt | Hge].
  - rewrite lookup_app_l in Hl by (by rewrite length_replicate).
    apply lookup_replicate in Hl as [-> _]. contradiction.
  - rewrite lookup_app_r in Hl by (rewrite length_replicate; lia).
    rewrite length_replicate in Hl.
    destruct (ws - n) as [| d] eqn:Hd; simpl in Hl; [| done].
    injection Hl as <-. split; [lia | reflexivity].
Qed.

Lemma insert_closed_prefix (n : nat) (rs rs' : ReadyState) :
  <[ n := rs' ]> (replicate n CLOSED ++ [rs]) = replicate n CLOSED ++ [rs'].
Proof.
  rewrite insert_app_r_alt by (by rewrite length_replicate).
  rewrite length_replicate, Nat.sub_diag. reflexivity.
Qed.

(** A frame whose updater throws takes a mounted hook down as a tear-down
    does; on a hook that is gone it does nothing. *)
Lemma throwing_frame_unmounts (st : State) (ws : nat) (frame : Frame) (now : Z) :
  updater_throws frame = true →
  sockets st !! ws = Some OPEN ∨ sockets st !! ws = Some CLOSING →
  step st (Message ws frame now) = Some (if mounted st then unmount st else st).
Proof.
  intros Hthrows Hs. unfold step.
  destruct (updater_throws_true frame now (progress st) Hthrows) as [e ->].
  destruct Hs as [-> | ->]; by destruct (mounted st).
Qed.

Lemma render_errors_cons (ev : Event) (evs : list Event) :
  Forall (fun f => updater_throws f = false) (frames_of (ev :: evs)) →
  match ev with
  | Message _ frame _ => updater_throws frame = false
  | _ => True
  end
  ∧ Forall (fun f => updater_throws f = false) (frames_of evs).
Proof.
  unfold frames_of. destruct ev; simpl; try (by intros H);
    intros H; by apply Forall_cons in H.
Qed.

Lemma step_one_connection (st st' : State) (ev : Event) :
  one_connection st → ev ≠ Unmount →
  match ev with
  | Message _ frame _ => updater_throws frame = false
  | _ => True
  end →
  step st ev = Some st' → one_connection st'.
Proof.
  destruct st as [m c p w r so ti tc].
  intros [Hm Hshape] Hev Hframe Hstep. simpl in Hm, Hshape. subst m.
  destruct ev as [b | ws | ws frame now | ws | ws | tid b |]; simpl in Hstep;
    try discriminate; try contradiction.
  - (* open *)
    destruct (so !! ws) as [[]|] eqn:Hws; try discriminate. injection Hstep as <-.
    split; [reflexivity |]. simpl in *.
    destruct Hshape as [(n & rs & -> & Hrs & -> & ->) | (n & tid & -> & _)].
    + apply lookup_closed_prefix in Hws as [-> <-]; [| discriminate].
      left. exists n, OPEN. rewrite insert_closed_prefix. by repeat split.
    + apply lookup_replicate in Hws as [? _]. discriminate.
  - (* message *)
    destruct (updater_throws_false frame now p Hframe) as [m Hm]. rewrite Hm in Hstep.
    destruct (so !! ws) as [[]|]; try discriminate; injection Hstep as <-; by split.
  - (* error *)
    destruct (so !! ws) as [[]|]; try discriminate; injection Hstep as <-; by split.
  - (* close *)
    assert (∃ rs', so !! ws = Some rs' ∧ rs' ≠ CLOSED
                   ∧ st' = onclose (set_socket ws CLOSED (mkState true c p w r so ti tc)))
      as (rs' & Hws & Hne & ->).
    { destruct (so !! ws) as [[]|]; try discriminate; injection Hstep as <-;
        eexists; (split; [reflexivity |]); (split; [discriminate | reflexivity]). }
    split; [reflexivity |]. simpl in *.
    destruct Hshape as [(n & rs & -> & Hrs & -> & ->) | (n & tid & -> & _)].
    + apply lookup_closed_prefix in Hws as [-> _]; [| exact Hne].
      right. exists (S n), (S tc). rewrite insert_closed_prefix.
      split; [| by split].
      replace (S n) with (n + 1) by lia. rewrite replicate_add. reflexivity.
    + apply lookup_replicate in Hws as [-> _]. contradiction.
  - (* timer *)
    destruct (decide (tid ∈ ti.*1)) as [Hin | _]; [| discriminate].
    injection Hstep as <-.
    destruct Hshape as [(n & rs & -> & Hrs & -> & ->) | (n & tid' & -> & -> & ->)];
      simpl in Hin; [by apply elem_of_nil in Hin |].
    apply list_elem_of_singleton in Hin as ->.
    split; [by destruct b |].
    destruct b; simpl; rewrite filter_cons_False by (simpl; intros H; by apply H); simpl.
    + right. exists n, (S tc). by repeat split.
    + left. exists n, CONNECTING. rewrite length_replicate. by repeat split.
Qed.

Lemma run_one_connection (evs : list Event) :
  ∀ st st', one_connection st → stays_mounted evs →
            Forall (fun f => updater_throws f = false) (frames_of evs) →
            run st evs = Some st' →
            one_connection st'.
Proof.
  induction evs as [| ev evs IH]; intros st st' Hinv Hall Hframes Hrun; simpl in Hrun.
  - by injection Hrun as <-.
  - apply Forall_cons in Hall as [Hev Hall].
    apply render_errors_cons in Hframes as [Hframe Hframes].
    destruct (step st ev) as [st1 |] eqn:Hstep; [| discriminate].
    eapply IH; [| exact Hall | exact Hframes | exact Hrun].
    eapply step_one_connection; eassumption.
Qed.

(** X3: from mounting on, as long as the consumer is not taken off the page
    and no frame makes the updater throw, whatever the sockets and timers
    do, the hook is mounted and has either exactly one socket that is not
    closed, the one [wsRef] names, and no pending time-out, or no such
    socket and exactly one pending time-out, of [RECONNECT_DELAY], the one
    [reconnectTimeoutRef] names: never two connections, never two reconnect
    timers. *)
Theorem one_connection_while_mounted
    (constructor_throws : bool) (evs : list Event) (st : State) :
  stays_mounted evs →
  Forall (fun f => updater_throws f = false) (frames_of evs) →
  run initial (Mount constructor_throws :: evs) = Some st →
  mounted st = true
  ∧ ((∃ ws rs, live (sockets st) = [rs] ∧ wsRef st = Some ws
               ∧ sockets st !! ws = Some rs ∧ timers st = [])
     ∨ (∃ tid, live (sockets st) = [] ∧ timers st = [(tid, RECONNECT_DELAY)]
               ∧ reconnectTimeoutRef st = Some tid)).
Proof.
  intros Hall Hframes Hrun. simpl in Hrun.
  assert (Hinv : one_connection st).
  { eapply run_one_connection; [| exact Hall | exact Hframes | exact Hrun].
    split; [by destruct constructor_throws |].
    destruct constructor_throws; simpl.
    - right. exists 0, 1. by repeat split.
    - left. exists 0, CONNECTING. by repeat split. }
  destruct Hinv as [Hm [(n & rs & Hso & Hrs & Hw & Ht) | (n & tid & Hso & Ht & Hr)]];
    (split; [exact Hm |]).
  - left. exists n, rs. rewrite Hso, live_last by exact Hrs.
    repeat split; try assumption.
    rewrite lookup_app_r by (by rewrite length_replicate).
    by rewrite length_replicate, Nat.sub_diag.
  - right. exists tid. rewrite Hso, live_closed. by repeat split.
Qed.

Lemma one_connection_while_mounted_witness :
  let progress_7 := Parsed (JObj [("download_id", JNum 7); ("progress", JNum 40)]) in
  let evs := [Opened 0; Message 0 Malformed 5; Message 0 progress_7 6; Closed 0;
              TimerFired 1 true; TimerFired 2 false; Errored 1; Closed 1] in
  stays_mounted evs
  ∧ Forall (fun f => updater_throws f = false) (frames_of evs)
  ∧ ∃ st, run initial (Mount false :: evs) = Some st
          ∧ sockets st = [CLOSED; CLOSED]
          ∧ mounted st = true
          ∧ ((∃ ws rs, live (sockets st) = [rs] ∧ wsRef st = Some ws
                       ∧ sockets st !! ws = Some rs ∧ timers st = [])
             ∨ (∃ tid, live (sockets st) = [] ∧ timers st = [(tid, RECONNECT_DELAY)]
                       ∧ reconnectTimeoutRef st = Some tid)).
Proof.
  intros progress_7 evs.
  assert (Hall : stays_mounted evs) by (repeat constructor; discriminate).
  assert (Hframes : Forall (fun f => updater_throws f = false) (frames_of evs))
    by (repeat constructor).
  split; [exact Hall |]. split; [exact Hframes |].
  destruct (run initial (Mount false :: evs)) as [st |] eqn:Hrun;
    [| vm_compute in Hrun; discriminate].
  exists st. split; [reflexivity |].
  pose proof (one_connection_while_mounted false evs st Hall Hframes Hrun) as Hone.
  vm_compute in Hrun. injection Hrun as <-.
  split; [reflexivity | exact Hone].
Defined.

End HookFacts.

(* ===================================================================== *)
(** * Properties of the HTTP client *)
(* ===================================================================== *)

Section ApiFacts.
Import Js Api.
Local Open Scope Z_scope.

(** A transient failure makes the [try] block throw [failure_of]. *)
Lemma transient_throws (maxRetries : Z) (n : nat) (attempt : Z)
    (o : FetchOutcome) (rest : list FetchOutcome) :
  transient o →
  request_loop maxRetries (S n) attempt (o :: rest) =
    if attempt + 1 >? maxRetries then (Thrown (failure_of o), [Fetched])
    else let '(out, io) := request_loop maxRetries n (attempt + 1) rest in
         (out, Fetched :: Slept (1000 * 2 ^ (attempt + 1 - 1)) :: io).
Proof.
  destruct o as [t r | t e |]; simpl; [| reflexivity | tauto].
  unfold server_error, handle_response, ok. intros Hs.
  apply andb_prop in Hs as [Hlo Hhi].
  apply Z.leb_le in Hlo. apply Z.leb_le in Hhi.
  replace (status r <=? 299) with false by (symmetry; apply Z.leb_gt; lia).
  rewrite andb_false_r. simpl.
  replace (status r <? 500) with false by (symmetry; apply Z.ltb_ge; lia).
  rewrite andb_false_r. simpl. reflexivity.
Qed.

Lemma retry_io_from_S (first : Z) (k : nat) :
  retry_io_from first (S k)
  = Fetched :: Slept (1000 * 2 ^ first) :: retry_io_from (first + 1) k.
Proof.
  unfold retry_io_from. rewrite <- cons_seq. simpl.
  rewrite Z.add_0_r. do 2 f_equal. f_equal.
  rewrite <- fmap_S_seq. rewrite flat_map_concat_map, flat_map_concat_map.
  f_equal. rewrite <- list_fmap_compose. apply list_fmap_ext.
  intros _ i _. simpl. replace (first + Z.of_nat (S i)) with (first + 1 + Z.of_nat i) by lia.
  reflexivity.
Qed.

(** The loop on a script that fails [k] times and then answers. *)
Lemma request_loop_recovers (maxRetries : Z) (fails : list FetchOutcome) :
  ∀ (n : nat) (attempt : Z) (t : Z) (r : Response) (p : Payload) (rest : list FetchOutcome),
    Forall transient fails →
    handle_response r = Normal p →
    attempt + Z.of_nat (length fails) ≤ maxRetries →
    (length fails < n)%nat →
    request_loop maxRetries n attempt (fails ++ Responds t r :: rest)
    = (Returned p, retry_io_from attempt (length fails)).
Proof.
  induction fails as [| o fails IH]; intros n attempt t r p rest Hall Hr Hle Hn.
  - destruct n as [| n]; [simpl in Hn; lia |]. simpl. rewrite Hr. reflexivity.
  - destruct n as [| n]; [simpl in Hn; lia |].
    apply Forall_cons in Hall as [Ho Hall].
    rewrite <- app_comm_cons, transient_throws by exact Ho.
    simpl length in *.
    replace (attempt + 1 >? maxRetries) with false by (symmetry; rewrite Z.gtb_ltb; apply Z.ltb_ge; lia).
    rewrite (IH n (attempt + 1) t r p rest Hall Hr) by lia.
    rewrite retry_io_from_S. replace (attempt + 1 - 1) with attempt by lia. reflexivity.
Qed.

(** The loop on a script that fails once more than it may retry. *)
Lemma request_loop_gives_up (maxRetries : Z) (fails : list FetchOutcome) :
  ∀ (n : nat) (attempt : Z) (f : FetchOutcome) (rest : list FetchOutcome),
    Forall transient fails → transient f →
    attempt + Z.of_nat (length fails) = maxRetries →
    (length fails < n)%nat →
    request_loop maxRetries n attempt (fails ++ f :: rest)
    = (Thrown (failure_of f), retry_io_from attempt (length fails)).
Proof.
  induction fails as [| o fails IH]; intros n attempt f rest Hall Hf Hle Hn.
  - destruct n as [| n]; [simpl in Hn; lia |]. simpl app.
    rewrite transient_throws by exact Hf. simpl length in *.
    replace (attempt + 1 >? maxRetries) with true by (symmetry; rewrite Z.gtb_ltb; apply Z.ltb_lt; lia).
    reflexivity.
  - destruct n as [| n]; [simpl in Hn; lia |].
    apply Forall_cons in Hall as [Ho Hall].
    rewrite <- app_comm_cons, transient_throws by exact Ho.
    simpl length in *.
    replace (attempt + 1 >? maxRetries) with false by (symmetry; rewrite Z.gtb_ltb; apply Z.ltb_ge; lia).
    rewrite (IH n (attempt + 1) f rest Hall Hf) by lia.
    rewrite retry_io_from_S. replace (attempt + 1 - 1) with attempt by lia. reflexivity.
Qed.

(** Before retry number [a] (counted from [first + 1]) the call sleeps
    [1000 * 2^(a-1)] ms. *)
Lemma sleeps_retry_io_from (k : nat) :
  ∀ first : Z,
    sleeps (retry_io_from first k)
    = (fun a => 1000 * 2 ^ (first + Z.of_nat a - 1)) <$> seq 1 k.
Proof.
  induction k as [| k IH]; intros first; [reflexivity |].
  rewrite retry_io_from_S. unfold sleeps in *. simpl omap.
  rewrite IH. rewrite <- cons_seq, <- (fmap_S_seq 1). simpl.
  f_equal.
  - do 2 f_equal. lia.
  - rewrite <- list_fmap_compose. apply list_fmap_ext. intros _ a _. simpl.
    do 2 f_equal. lia.
Qed.

Lemma fetches_retry_io_from (k : nat) :
  ∀ first : Z, fetches (retry_io_from first k) = S k.
Proof.
  induction k as [| k IH]; intros first; [reflexivity |].
  rewrite retry_io_from_S. unfold fetches in *.
  rewrite (filter_cons_True _ Fetched) by reflexivity.
  rewrite (filter_cons_False _ (Slept _)) by discriminate.
  simpl. f_equal. apply IH.
Qed.

(** A 2xx answer whose content type announces JSON and whose body is a JSON
    document resolves the call to that document. *)
Lemma handle_response_json (r : Response) (doc : json) :
  ok r = true → is_json_content (content_type r) = true → body r = JsonBody doc →
  handle_response r = Normal (PJson doc).
Proof.
  intros Hok Hct Hb. unfold handle_response, json_. rewrite Hok, Hct, Hb. reflexivity.
Qed.

(** C6: with [retries = n], a call whose first [k <= n] attempts fail with a
    5xx answer or a rejected [fetch] and whose next attempt succeeds
    resolves to the successful payload after [k] retries; a call whose
    first [n + 1] attempts all fail so throws the error of the last one,
    after [n] retries.  Retry number [a] is preceded by a sleep of
    [1000 * 2^(a-1)] ms, and there is one request per attempt.  With
    [retries = 2], two 503 answers and then a 200 give the payload after
    sleeps of exactly 1000 ms and 2000 ms. *)
Theorem request_retries_with_backoff
    (n : Z) (tmo : option Z) (fails rest : list FetchOutcome) :
  0 ≤ n → Forall transient fails →
  (∀ t r p,
     Z.of_nat (length fails) ≤ n → handle_response r = Normal p →
     request (mkOptions tmo (Some n)) (fails ++ Responds t r :: rest)
     = (Returned p, retry_io (length fails)))
  ∧ (∀ f,
       Z.of_nat (length fails) = n → transient f →
       request (mkOptions tmo (Some n)) (fails ++ f :: rest)
       = (Thrown (failure_of f), retry_io (length fails)))
  ∧ sleeps (retry_io (length fails))
    = (fun a => 1000 * 2 ^ (Z.of_nat a - 1)) <$> seq 1 (length fails)
  ∧ fetches (retry_io (length fails)) = S (length fails)
  ∧ request (mkOptions tmo (Some 2))
      [Responds 120 unavailable_503; Responds 80 unavailable_503; Responds 95 ok_200]
    = (Returned (PJson (JObj [("id", JNum 7)])),
       [Fetched; Slept 1000; Fetched; Slept 2000; Fetched]).
Proof.
  intros Hn Hall. unfold request, maxRetries_of. simpl retries.
  split; [| split; [| split; [| split]]].
  - intros t r p Hk Hr. apply request_loop_recovers; try assumption; lia.
  - intros f Hk Hf. apply request_loop_gives_up; try assumption; lia.
  - unfold retry_io. rewrite sleeps_retry_io_from. reflexivity.
  - apply fetches_retry_io_from.
  - vm_compute. reflexivity.
Qed.

(** The theorem at [retries = 2] and two 503 answers. *)
Lemma request_retries_with_backoff_witness :
  0 ≤ 2
  ∧ Forall transient [Responds 120 unavailable_503; Responds 80 unavailable_503]
  ∧ request (mkOptions None (Some 2))
      ([Responds 120 unavailable_503; Responds 80 unavailable_503]
         ++ Responds 95 ok_200 :: [])
    = (Returned (PJson (JObj [("id", JNum 7)])), retry_io 2)
  ∧ sleeps (retry_io 2) = [1000; 2000].
Proof.
  assert (Hall : Forall transient [Responds 120 unavailable_503; Responds 80 unavailable_503])
    by (repeat constructor).
  split; [lia |]. split; [exact Hall |].
  destruct (request_retries_with_backoff 2 None
              [Responds 120 unavailable_503; Responds 80 unavailable_503] []
              ltac:(lia) Hall) as (Hok & _ & Hsleep & _).
  split.
  - apply (Hok 95 ok_200); [simpl; lia | reflexivity].
  - exact Hsleep.
Defined.

(** A 4xx answer always makes the [try] block throw. *)
Lemma client_error_throws (r : Response) :
  client_error r = true → ∃ e, handle_response r = Throw e.
Proof.
  unfold client_error, handle_response, ok. intros Hc.
  apply andb_prop in Hc as [Hlo Hhi].
  apply Z.leb_le in Hlo. apply Z.leb_le in Hhi.
  replace (status r <=? 299) with false by (symmetry; apply Z.leb_gt; lia).
  rewrite andb_false_r. simpl.
  replace (400 <=? status r) with true by (symmetry; apply Z.leb_le; lia).
  replace (status r <? 500) with true by (symmetry; apply Z.ltb_lt; lia).
  simpl. destruct (get_prop _ "detail") as [d | e]; simpl; [| eauto].
  destruct (truthy d); [| eauto].
  destruct (String_ d) as [m | e]; simpl; eauto.
Qed.

(** The error of a 4xx answer whose body is an object with a non-empty
    string [detail] carries that string. *)
Lemma client_error_detail (r : Response) (fields : list (string * json)) (d : string) :
  client_error r = true → body r = JsonBody (JObj fields) →
  own_property "detail" fields = Some (JStr d) → d ≠ "" →
  handle_response r = Throw (new_Error d).
Proof.
  unfold client_error, handle_response, ok, json_. intros Hc Hb Hd Hne.
  apply andb_prop in Hc as [Hlo Hhi].
  apply Z.leb_le in Hlo. apply Z.leb_le in Hhi.
  replace (status r <=? 299) with false by (symmetry; apply Z.leb_gt; lia).
  rewrite andb_false_r. simpl.
  replace (400 <=? status r) with true by (symmetry; apply Z.leb_le; lia).
  replace (status r <? 500) with true by (symmetry; apply Z.ltb_lt; lia).
  rewrite Hb. simpl. rewrite Hd. simpl.
  destruct (String.eqb d "") eqn:Heq; [apply String.eqb_eq in Heq; contradiction |].
  reflexivity.
Qed.

(** Without retries a 4xx answer is thrown at once. *)
Lemma client_error_final_without_retries
    (tmo : option Z) (t : Z) (r : Response) (rest : list FetchOutcome) (e : JsError) :
  handle_response r = Throw e →
  request (mkOptions tmo None) (Responds t r :: rest) = (Thrown e, [Fetched])
  ∧ request (mkOptions tmo (Some 0)) (Responds t r :: rest) = (Thrown e, [Fetched]).
Proof. intros Hr. unfold request. simpl. rewrite Hr. split; reflexivity. Qed.

(** With any positive number of retries a 4xx answer is followed by a sleep
    of 1000 ms and another request. *)
Lemma client_error_retried_when_allowed
    (tmo : option Z) (n t : Z) (r : Response) (rest : list FetchOutcome) :
  1 ≤ n → client_error r = true →
  ∃ out io,
    request (mkOptions tmo (Some n)) (Responds t r :: rest)
    = (out, Fetched :: Slept 1000 :: Fetched :: io).
Proof.
  intros Hn Hc. destruct (client_error_throws r Hc) as [e He].
  unfold request, maxRetries_of. simpl retries.
  destruct (Z.to_nat (n + 1)) as [| [| k]] eqn:Hk; [lia | lia |].
  cbn [request_loop]. rewrite He.
  replace (0 + 1 >? n) with false by (symmetry; rewrite Z.gtb_ltb; apply Z.ltb_ge; lia).
  destruct rest as [| [t' r' | t' e' |] rest'].
  - eexists _, _. reflexivity.
  - destruct (handle_response r') as [p | e2].
    + eexists _, _. reflexivity.
    + destruct (0 + 1 + 1 >? n).
      * eexists _, _. reflexivity.
      * destruct (request_loop n k (0 + 1 + 1) rest') as [out io]. eexists _, _. reflexivity.
  - destruct (0 + 1 + 1 >? n).
    + eexists _, _. reflexivity.
    + destruct (request_loop n k (0 + 1 + 1) rest') as [out io]. eexists _, _. reflexivity.
  - eexists _, _. reflexivity.
Qed.

(** A [fetch] that never settles leaves the call pending, whatever the
    options. *)
Lemma pending_fetch_hangs (options : Options) (rest : list FetchOutcome) :
  0 ≤ maxRetries_of options →
  request options (NeverSettles :: rest) = (Hangs, [Fetched]).
Proof.
  intros Hn. unfold request.
  destruct (Z.to_nat (maxRetries_of options + 1)) eqn:Hk; [lia | reflexivity].
Qed.

(** C3: with [retries = 1] a 404 whose body is [{"detail":"not found"}]
    is not final: the call sleeps 1000 ms and asks again, and only the
    second 404 is thrown (or the second answer returned, when it is a
    success).  The thrown error does carry the server's detail, and with
    no retries configured the first 404 is thrown at once. *)
Theorem client_error_is_retried :
  request (mkOptions None (Some 1)) [Responds 30 not_found_404; Responds 30 not_found_404]
  = (Thrown (new_Error "not found"), [Fetched; Slept 1000; Fetched])
  ∧ request (mkOptions None (Some 1)) [Responds 30 not_found_404; Responds 30 ok_200]
    = (Returned (PJson (JObj [("id", JNum 7)])), [Fetched; Slept 1000; Fetched])
  ∧ request (mkOptions None None) [Responds 30 not_found_404]
    = (Thrown (new_Error "not found"), [Fetched]).
Proof. repeat split; vm_compute; reflexivity. Qed.

(** The option [timeout] has no part in what a call does. *)
Lemma request_ignores_timeout (t1 t2 n : option Z) (script : list FetchOutcome) :
  request (mkOptions t1 n) script = request (mkOptions t2 n) script.
Proof. reflexivity. Qed.

(** C4: the time-out is 10000 ms when not given, but no timer is armed: a
    call whose [fetch] never settles stays pending, and an answer that
    takes 60000 ms is returned under a time-out of 50 ms as under the
    default one.  An abort error, were one raised, is retried like any
    other failure. *)
Theorem request_never_times_out :
  timeout_of (mkOptions None None) = 10000
  ∧ request (mkOptions None None) [NeverSettles] = (Hangs, [Fetched])
  ∧ request (mkOptions (Some 50) None) [Responds 60000 ok_200]
    = (Returned (PJson (JObj [("id", JNum 7)])), [Fetched])
  ∧ request (mkOptions None None) [Responds 60000 ok_200]
    = (Returned (PJson (JObj [("id", JNum 7)])), [Fetched])
  ∧ request (mkOptions None (Some 1))
      [Rejects 10000 (mkError "AbortError" "The operation was aborted."); Responds 30 ok_200]
    = (Returned (PJson (JObj [("id", JNum 7)])), [Fetched; Slept 1000; Fetched]).
Proof. repeat split; vm_compute; reflexivity. Qed.

(** ** Further properties of the client *)

(** The trace of the loop, whatever the network does. *)
Lemma request_loop_trace (maxRetries : Z) (n : nat) :
  ∀ (attempt : Z) (script : list FetchOutcome),
    Z.of_nat n = maxRetries + 1 - attempt → (0 < n)%nat →
    ∃ k : nat,
      attempt + Z.of_nat k ≤ maxRetries
      ∧ (request_loop maxRetries n attempt script).2 = retry_io_from attempt k.
Proof.
  induction n as [| n IH]; intros attempt script Hn Hpos; [lia |].
  assert (Hcatch : ∀ (e : JsError) (rest : list FetchOutcome),
            ∃ k : nat,
              attempt + Z.of_nat k ≤ maxRetries
              ∧ (if attempt + 1 >? maxRetries then (Thrown e, [Fetched])
                 else let '(out, io) := request_loop maxRetries n (attempt + 1) rest in
                      (out, Fetched :: Slept (1000 * 2 ^ (attempt + 1 - 1)) :: io)).2
                = retry_io_from attempt k).
  { intros e rest. destruct (attempt + 1 >? maxRetries) eqn:Hgt.
    - exists 0%nat. split; [lia | reflexivity].
    - rewrite Z.gtb_ltb in Hgt. apply Z.ltb_ge in Hgt.
      destruct (IH (attempt + 1) rest ltac:(lia) ltac:(lia)) as (k & Hk & Hio).
      exists (S k). split; [lia |].
      destruct (request_loop maxRetries n (attempt + 1) rest) as [out io].
      simpl in *. rewrite Hio, retry_io_from_S.
      replace (attempt + 1 - 1) with attempt by lia. reflexivity. }
  destruct script as [| [t r | t e |] rest]; cbn [request_loop].
  - exists 0%nat. split; [lia | reflexivity].
  - destruct (handle_response r) as [p | e].
    + exists 0%nat. split; [lia | reflexivity].
    + apply Hcatch.
  - apply Hcatch.
  - exists 0%nat. split; [lia | reflexivity].
Qed.

(** X4: whatever the answers, a call with [retries = n >= 0] makes [k + 1]
    requests for some [k <= n], sleeps only between two requests, and the
    sleep before retry number [a] is [1000 * 2^(a-1)] ms: never more than
    [n + 1] requests, never a sleep after the last one. *)
Theorem request_is_bounded (options : Options) (script : list FetchOutcome) :
  0 ≤ maxRetries_of options →
  ∃ k : nat,
    Z.of_nat k ≤ maxRetries_of options
    ∧ (request options script).2 = retry_io k
    ∧ fetches (request options script).2 = S k
    ∧ sleeps (request options script).2
      = (fun a => 1000 * 2 ^ (Z.of_nat a - 1)) <$> seq 1 k.
Proof.
  intros Hn. unfold request.
  destruct (request_loop_trace (maxRetries_of options)
              (Z.to_nat (maxRetries_of options + 1)) 0 script ltac:(lia) ltac:(lia))
    as (k & Hk & Hio).
  exists k. split; [lia |]. rewrite Hio. split; [reflexivity |].
  split; [apply fetches_retry_io_from |].
  rewrite sleeps_retry_io_from. reflexivity.
Qed.

Lemma request_is_bounded_witness :
  let script := [Responds 20 unavailable_503; Rejects 5 (TypeError "Failed to fetch");
                 Responds 20 not_found_404; Responds 20 ok_200] in
  0 ≤ maxRetries_of (mkOptions None (Some 2))
  ∧ ∃ k : nat,
      Z.of_nat k ≤ 2
      ∧ (request (mkOptions None (Some 2)) script).2 = retry_io k
      ∧ fetches (request (mkOptions None (Some 2)) script).2 = S k
      ∧ sleeps (request (mkOptions None (Some 2)) script).2
        = (fun a => 1000 * 2 ^ (Z.of_nat a - 1)) <$> seq 1 k.
Proof.
  intros script. split; [unfold maxRetries_of; simpl; lia |].
  apply (request_is_bounded (mkOptions None (Some 2)) script).
  unfold maxRetries_of. simpl. lia.
Defined.

(** X5: a negative [retries] makes the loop guard fail at once: the call
    resolves to [undefined] without a single request, whatever the server
    would have answered. *)
Theorem negative_retries_skip_the_request
    (tmo : option Z) (n : Z) (script : list FetchOutcome) :
  n < 0 → request (mkOptions tmo (Some n)) script = (Returned PUndefined, []).
Proof.
  intros Hn. unfold request, maxRetries_of. simpl retries.
  destruct (Z.to_nat (n + 1)) eqn:Hk; [reflexivity | lia].
Qed.

Lemma negative_retries_skip_the_request_witness :
  -1 < 0
  ∧ request (mkOptions None (Some (-1))) [Responds 20 ok_200] = (Returned PUndefined, []).
Proof.
  split; [lia |].
  apply (negative_retries_skip_the_request None (-1) [Responds 20 ok_200]). lia.
Defined.

(** X6: a 2xx answer ends the call with one request and no sleep, whatever
    [retries] allows, unless it announces JSON and does not parse: the
    payload is the parsed document when the content type contains
    [application/json], and the raw body as a blob for any other or absent
    content type; a 2xx answer that announces JSON with a body that is not
    JSON is a failure, thrown as it is when no retry is left. *)
Theorem success_is_decoded_by_content_type
    (tmo : option Z) (n t : Z) (r : Response) (rest : list FetchOutcome) :
  0 ≤ n → ok r = true →
  (∀ doc, is_json_content (content_type r) = true → body r = JsonBody doc →
          request (mkOptions tmo (Some n)) (Responds t r :: rest)
          = (Returned (PJson doc), [Fetched]))
  ∧ (is_json_content (content_type r) = false →
     request (mkOptions tmo (Some n)) (Responds t r :: rest)
     = (Returned (PBlob (body r)), [Fetched]))
  ∧ (∀ raw, is_json_content (content_type r) = true → body r = RawBody raw →
            ∃ e, name e = "SyntaxError"
                 ∧ request (mkOptions tmo (Some 0)) (Responds t r :: rest)
                   = (Thrown e, [Fetched])).
Proof.
  intros Hn Hok. unfold request, maxRetries_of. simpl retries.
  destruct (Z.to_nat (n + 1)) as [| m] eqn:Hm; [lia |].
  split; [| split].
  - intros doc Hct Hb. cbn [request_loop].
    by rewrite (handle_response_json r doc Hok Hct Hb).
  - intros Hct. cbn [request_loop]. unfold handle_response. by rewrite Hok, Hct.
  - intros raw Hct Hb. exists (Native "SyntaxError"). split; [reflexivity |].
    simpl. unfold handle_response, json_. by rewrite Hok, Hct, Hb.
Qed.

Lemma success_is_decoded_by_content_type_witness :
  let file := mkResponse 200 "OK" (Some "video/mp4") (RawBody "....mp4 bytes") in
  0 ≤ 3 ∧ ok file = true
  ∧ request (mkOptions None (Some 3)) [Responds 900 file]
    = (Returned (PBlob (RawBody "....mp4 bytes")), [Fetched]).
Proof.
  intros file. split; [lia |]. split; [reflexivity |].
  destruct (success_is_decoded_by_content_type None 3 900 file [] ltac:(lia) eq_refl)
    as (_ & Hblob & _).
  apply Hblob. reflexivity.
Defined.

(** X7: what the error of a 4xx answer says when the server's detail is
    missing (no retries configured).  A JSON object without a [detail]
    field, or with an empty one, gives [HTTP <status>: <statusText>]; a
    body that is not JSON gives the status text, or the [HTTP ...] line when
    the status text is empty; a JSON body that is [null] makes the read of
    [detail] throw, and the caller gets that [TypeError] instead. *)
Theorem client_error_message_fallbacks
    (tmo : option Z) (t : Z) (r : Response) (rest : list FetchOutcome) :
  client_error r = true →
  (∀ fields, body r = JsonBody (JObj fields) →
             truthy (own_property "detail" fields) = false →
             request (mkOptions tmo None) (Responds t r :: rest)
             = (Thrown (new_Error (http_message r)), [Fetched]))
  ∧ (∀ raw, body r = RawBody raw → statusText r ≠ "" →
            request (mkOptions tmo None) (Responds t r :: rest)
            = (Thrown (new_Error (statusText r)), [Fetched]))
  ∧ (∀ raw, body r = RawBody raw → statusText r = "" →
            request (mkOptions tmo None) (Responds t r :: rest)
            = (Thrown (new_Error (http_message r)), [Fetched]))
  ∧ (body r = JsonBody JNull →
     ∃ e, name e = "TypeError"
          ∧ request (mkOptions tmo None) (Responds t r :: rest) = (Thrown e, [Fetched])).
Proof.
  intros Hc.
  assert (Hbranch : ok r = false ∧ (400 <=? status r) && (status r <? 500) = true).
  { unfold client_error, ok in *. apply andb_prop in Hc as [Hlo Hhi].
    apply Z.leb_le in Hlo. apply Z.leb_le in Hhi. split.
    - apply andb_false_intro2. apply Z.leb_gt. lia.
    - apply andb_true_intro. split; [apply Z.leb_le | apply Z.ltb_lt]; lia. }
  destruct Hbranch as [Hok H4].
  unfold request. simpl. unfold handle_response, json_. rewrite Hok, H4. simpl.
  split; [| split; [| split]].
  - intros fields -> Hd. simpl. by rewrite Hd.
  - intros raw -> Hst. simpl.
    destruct (String.eqb (statusText r) "") eqn:Heq;
      [apply String.eqb_eq in Heq; contradiction | reflexivity].
  - intros raw -> Hst. simpl. rewrite Hst. reflexivity.
  - intros ->. simpl. eexists. split; [| reflexivity]. reflexivity.
Qed.

Lemma client_error_message_fallbacks_witness :
  let r := mkResponse 422 "Unprocessable Entity" (Some "application/json")
                      (JsonBody (JObj [("errors", JArr [JStr "url"])])) in
  client_error r = true
  ∧ request (mkOptions None None) [Responds 15 r]
    = (Thrown (new_Error "HTTP 422: Unprocessable Entity"), [Fetched]).
Proof.
  intros r. split; [reflexivity |].
  destruct (client_error_message_fallbacks None 15 r [] eq_refl) as (Hobj & _).
  apply (Hobj [("errors", JArr [JStr "url"])]); reflexivity.
Defined.

End ApiFacts.

(* ===================================================================== *)
(** * Properties of the progress handlers *)
(* ===================================================================== *)

Section ProgressFacts.
Import Progress.

(** No position of the array equals an index at or past its length. *)
Lemma map_at_out_of_range (i : Z) (f : VideoProgress → VideoProgress)
    (videos : list VideoProgress) :
  (Z.of_nat (length videos) ≤ i)%Z → map_at i f videos = videos.
Proof.
  intros Hi. unfold map_at. apply list_eq. intros idx.
  rewrite list_lookup_imap. destruct (videos !! idx) as [v|] eqn:Hv; [| reflexivity].
  simpl. apply lookup_lt_Some in Hv. case_decide; [lia | reflexivity].
Qed.

Lemma map_at_lookup (n : nat) (f : VideoProgress → VideoProgress)
    (videos : list VideoProgress) (j : nat) :
  map_at (Z.of_nat n) f videos !! j
  = if decide (j = n) then f <$> videos !! j else videos !! j.
Proof.
  unfold map_at. rewrite list_lookup_imap.
  destruct (videos !! j) as [v|]; simpl.
  - destruct (decide (j = n)) as [-> | Hne]; case_decide; try reflexivity; lia.
  - destruct (decide (j = n)); reflexivity.
Qed.

Lemma at_index_out_of_range (i : Z) (videos : list VideoProgress) :
  (Z.of_nat (length videos) ≤ i)%Z → at_index i videos = None.
Proof.
  intros Hi. unfold at_index. case_decide; [| reflexivity].
  apply lookup_ge_None. lia.
Qed.

Lemma update_at_out_of_range (i : Z) (f : VideoProgress → VideoProgress)
    (videos : list VideoProgress) :
  (Z.of_nat (length videos) ≤ i)%Z → update_at i f videos = videos.
Proof. intros Hi. unfold update_at. rewrite at_index_out_of_range by exact Hi. reflexivity. Qed.

Lemma update_at_lookup (n : nat) (f : VideoProgress → VideoProgress)
    (videos : list VideoProgress) (j : nat) :
  update_at (Z.of_nat n) f videos !! j
  = if decide (j = n) then f <$> videos !! j else videos !! j.
Proof.
  unfold update_at, at_index. rewrite decide_True by lia. rewrite Nat2Z.id.
  destruct (videos !! n) as [v|] eqn:Hv.
  - destruct (decide (j = n)) as [-> | Hne].
    + rewrite Hv. simpl. apply list_lookup_insert_eq. by eapply lookup_lt_Some.
    + by apply list_lookup_insert_ne.
  - destruct (decide (j = n)) as [-> | Hne]; [by rewrite Hv | reflexivity].
Qed.

(** In [WorkflowProgress] an event of another execution changes nothing and
    triggers no reload. *)
Lemma WorkflowProgress_ignores_other_executions
    (viewed : Z) (ev : StreamEvent) (videos : list VideoProgress) :
  execution_id_of ev ≠ viewed →
  WorkflowProgress (Some viewed) (Some ev) videos = (videos, false).
Proof.
  intros Hne. unfold WorkflowProgress, same_execution.
  destruct ev; simpl in Hne; try reflexivity;
    rewrite bool_decide_eq_false_2 by congruence; reflexivity.
Qed.

(** C2: [WorkflowExecutionDetails] never compares [data.execution_id] with
    the execution it shows.  Opened on execution 42, it applies the events
    of execution 99: [video_started] turns a pending video to processing,
    [videos_scanned] replaces the list, [log] appends to the log and
    [workflow_failed] triggers a reload, where [WorkflowProgress] ignores
    all four. *)
Theorem WorkflowExecutionDetails_applies_other_executions :
  let v := mkVideo "clip" None "pending" None (Some ∅) None in
  let st := mkDetails (Some (mkExecution "running" (Some ["started"]))) [v] in
  WorkflowExecutionDetails (Some 42%Z) (video_started 99 0) st
  = (mkDetails (execution st) [with_status "processing" v], false)
  ∧ WorkflowExecutionDetails (Some 42%Z) (videos_scanned 99 []) st
    = (mkDetails (execution st) [], false)
  ∧ WorkflowExecutionDetails (Some 42%Z) (log 99 "12:00" "other run") st
    = (mkDetails (Some (mkExecution "running" (Some ["started"; "[12:00] other run"]))) [v],
       false)
  ∧ WorkflowExecutionDetails (Some 42%Z) (workflow_failed 99) st = (st, true)
  ∧ (∀ ev, ev ∈ [video_started 99 0; videos_scanned 99 []; log 99 "12:00" "other run";
                 workflow_failed 99] →
       WorkflowProgress (Some 42%Z) (Some ev) [v] = ([v], false)).
Proof.
  intros v st. repeat split; try reflexivity.
  intros ev Hev. apply WorkflowProgress_ignores_other_executions.
  repeat (apply elem_of_cons in Hev as [-> | Hev]; [simpl; lia |]).
  by apply elem_of_nil in Hev.
Qed.

(** C9: a per-video event ([video_started], [video_stage_update],
    [video_completed], [video_failed]) whose [video_index] is at or past
    the length of the video array leaves the array as it is, raises
    nothing and triggers no reload, in [WorkflowProgress] (whichever
    execution it views) and in [WorkflowExecutionDetails]. *)
Theorem out_of_range_index_is_noop
    (ev : StreamEvent) (i : Z) (executionId : option Z)
    (videos : list VideoProgress) (execution : option Execution) :
  video_index_of ev = Some i →
  (Z.of_nat (length videos) ≤ i)%Z →
  WorkflowProgress executionId (Some ev) videos = (videos, false)
  ∧ WorkflowExecutionDetails executionId ev (mkDetails execution videos)
    = (mkDetails execution videos, false).
Proof.
  intros Hidx Hi.
  destruct ev; simpl in Hidx; try discriminate; injection Hidx as ->;
    (split;
     [ unfold WorkflowProgress; destruct (same_execution _ _);
       rewrite ?map_at_out_of_range by exact Hi; reflexivity
     | unfold WorkflowExecutionDetails; simpl;
       rewrite update_at_out_of_range by exact Hi; reflexivity ]).
Qed.

(** The theorem at [video_failed] for index 2 of a two-element array. *)
Lemma out_of_range_index_is_noop_witness :
  let videos := [mkVideo "a" None "completed" None (Some ∅) None;
                 mkVideo "b" None "processing" (Some "burn") (Some ∅) None] in
  video_index_of (video_failed 42 2 (Some "boom")) = Some 2%Z
  ∧ (Z.of_nat (length videos) ≤ 2)%Z
  ∧ WorkflowProgress (Some 42%Z) (Some (video_failed 42 2 (Some "boom"))) videos
    = (videos, false)
  ∧ WorkflowExecutionDetails (Some 42%Z) (video_failed 42 2 (Some "boom"))
      (mkDetails None videos)
    = (mkDetails None videos, false).
Proof.
  intros videos. split; [reflexivity |]. split; [simpl; lia |].
  apply (out_of_range_index_is_noop (video_failed 42 2 (Some "boom")) 2 (Some 42%Z)
           videos None);
    [reflexivity | simpl; lia].
Defined.

(** C5 (as amended): for a [video_stage_update(index, stage, status)]
    event on an in-range index.  In [WorkflowProgress], for the viewed
    execution, the entry's [current_stage] becomes the event's stage exactly
    when the status is ["running"] and is otherwise left as it was, and
    [stages[stage]] is set to the event's status, a missing key or a
    missing map being created.  In [WorkflowExecutionDetails] the entry's
    [current_stage] becomes the event's stage when the status is
    ["running"], and [stages[stage]] is set to the event's status, a missing
    key being created, when the entry has a [stages] map; an entry without
    one is given none.  In both, the array keeps its other entries and the
    entry its other fields. *)
Theorem stage_update_sets_stage
    (e : Z) (n : nat) (stage st : string)
    (videos : list VideoProgress) (v : VideoProgress) (execution : option Execution) :
  videos !! n = Some v →
  (∃ v' m',
     (WorkflowProgress (Some e) (Some (video_stage_update e (Z.of_nat n) stage st)) videos).1
       !! n = Some v'
     ∧ current_stage v' = (if decide (st = "running") then Some stage else current_stage v)
     ∧ stages v' = Some m'
     ∧ m' !! stage = Some st
     ∧ (∀ k, k ≠ stage → m' !! k = spread (stages v) !! k)
     ∧ (title v', thumbnail_url v', status v', error v')
       = (title v, thumbnail_url v, status v, error v)
     ∧ ∀ j, j ≠ n →
         (WorkflowProgress (Some e) (Some (video_stage_update e (Z.of_nat n) stage st))
            videos).1 !! j = videos !! j)
  ∧ (∃ v',
       scannedVideos
         (WorkflowExecutionDetails (Some e) (video_stage_update e (Z.of_nat n) stage st)
            (mkDetails execution videos)).1 !! n = Some v'
       ∧ (st = "running" → current_stage v' = Some stage)
       ∧ (∀ m, stages v = Some m →
            ∃ m', stages v' = Some m' ∧ m' !! stage = Some st
                  ∧ ∀ k, k ≠ stage → m' !! k = m !! k)
       ∧ (stages v = None → stages v' = None)
       ∧ (title v', thumbnail_url v', status v', error v')
         = (title v, thumbnail_url v, status v, error v)
       ∧ ∀ j, j ≠ n →
           scannedVideos
             (WorkflowExecutionDetails (Some e) (video_stage_update e (Z.of_nat n) stage st)
                (mkDetails execution videos)).1 !! j = videos !! j).
Proof.
  intros Hv. split.
  - unfold WorkflowProgress, same_execution.
    rewrite bool_decide_eq_true_2 by reflexivity. simpl.
    eexists _, _. rewrite map_at_lookup, decide_True, Hv by reflexivity. simpl.
    split; [reflexivity |]. split; [reflexivity |]. split; [reflexivity |].
    split; [apply lookup_insert_eq |].
    split; [intros k Hk; apply lookup_insert_ne; congruence |].
    split; [reflexivity |].
    intros j Hj. rewrite map_at_lookup, decide_False by exact Hj. reflexivity.
  - unfold WorkflowExecutionDetails. simpl.
    eexists. rewrite update_at_lookup, decide_True, Hv by reflexivity.
    unfold with_current_stage. simpl.
    split; [reflexivity |].
    split; [intros _; destruct (stages v); reflexivity |].
    split.
    { intros m Hm. rewrite Hm. simpl. eexists. split; [reflexivity |].
      split; [apply lookup_insert_eq |].
      intros k Hk. apply lookup_insert_ne. congruence. }
    split; [intros Hm; rewrite Hm; reflexivity |].
    split; [destruct (stages v); reflexivity |].
    intros j Hj. rewrite update_at_lookup, decide_False by exact Hj. reflexivity.
Qed.

(** The theorem at the second of two videos, for a completed download. *)
Lemma stage_update_sets_stage_witness :
  let v0 := mkVideo "a" None "completed" None (Some {[ "download" := "completed" ]}) None in
  let v1 := mkVideo "b" None "processing" (Some "download")
                    (Some {[ "download" := "running" ]}) None in
  [v0; v1] !! 1 = Some v1
  ∧ (∃ v' m',
       (WorkflowProgress (Some 42%Z) (Some (video_stage_update 42 1 "download" "completed"))
          [v0; v1]).1 !! 1 = Some v'
       ∧ current_stage v' = Some "download"
       ∧ stages v' = Some m' ∧ m' !! "download" = Some "completed")
  ∧ (∃ v' m',
       scannedVideos
         (WorkflowExecutionDetails (Some 42%Z) (video_stage_update 42 1 "download" "completed")
            (mkDetails None [v0; v1])).1 !! 1 = Some v'
       ∧ stages v' = Some m' ∧ m' !! "download" = Some "completed").
Proof.
  intros v0 v1. split; [reflexivity |].
  destruct (stage_update_sets_stage 42 1 "download" "completed" [v0; v1] v1 None eq_refl)
    as [(w & m & Hw & Hcur & Hst & Hm & _) (w' & Hw' & _ & Hst' & _)].
  split.
  - exists w, m. repeat split; assumption.
  - destruct (Hst' _ eq_refl) as (m' & Hs' & Hm' & _).
    exists w', m'. repeat split; assumption.
Defined.

(** C5, as first stated, fails in [WorkflowExecutionDetails] on an entry
    that has no [stages] map: the event's status is stored nowhere. *)
Lemma stage_update_skips_entry_without_stages :
  let v := mkVideo "clip" None "processing" None None None in
  ¬ ∃ v' m',
      scannedVideos
        (WorkflowExecutionDetails (Some 42%Z) (video_stage_update 42 0 "download" "running")
           (mkDetails None [v])).1 !! 0 = Some v'
      ∧ stages v' = Some m'
      ∧ m' !! "download" = Some "running".
Proof.
  intros v (v' & m' & Hv' & Hst & _).
  vm_compute in Hv'. injection Hv' as <-. discriminate Hst.
Qed.

(** ** Further properties of the progress handlers *)

Lemma map_at_touch (i : Z) (f : VideoProgress → VideoProgress) (l : list VideoProgress) :
  map_at i f l = touch i f l.
Proof.
  unfold touch. case_decide as Hi.
  - rewrite <- (Z2Nat.id i) at 1 by exact Hi.
    apply list_eq. intros j. rewrite map_at_lookup, list_lookup_alter.
    destruct (decide (j = Z.to_nat i)) as [-> |]; case_decide; try done; congruence.
  - unfold map_at. apply list_eq. intros j. rewrite list_lookup_imap.
    destruct (l !! j); simpl; [| done]. case_decide; [lia | done].
Qed.

Lemma update_at_touch (i : Z) (f : VideoProgress → VideoProgress) (l : list VideoProgress) :
  update_at i f l = touch i f l.
Proof.
  unfold touch. case_decide as Hi.
  - rewrite <- (Z2Nat.id i) at 1 by exact Hi.
    apply list_eq. intros j. rewrite update_at_lookup, list_lookup_alter.
    destruct (decide (j = Z.to_nat i)) as [-> |]; case_decide; try done; congruence.
  - unfold update_at, at_index. by rewrite decide_False.
Qed.

(** [WorkflowProgress] on an event of the viewed execution. *)
Lemma WorkflowProgress_as_touch (e : Z) (ev : StreamEvent) (videos : list VideoProgress) :
  execution_id_of ev = e →
  (WorkflowProgress (Some e) (Some ev) videos).1
  = match ev with
    | videos_scanned _ vs => vs
    | _ => match entry_change ev with
           | Some (i, f) => touch i f videos
           | None => videos
           end
    end.
Proof.
  intros <-. unfold WorkflowProgress, same_execution.
  destruct ev; simpl; rewrite ?bool_decide_eq_true_2 by reflexivity; simpl;
    rewrite ?map_at_touch; reflexivity.
Qed.

Lemma WorkflowProgress_other (eid : option Z) (ev : StreamEvent)
    (videos : list VideoProgress) :
  Some (execution_id_of ev) ≠ eid →
  (WorkflowProgress eid (Some ev) videos).1 = videos.
Proof.
  intros Hne. unfold WorkflowProgress, same_execution.
  destruct ev; simpl in *; rewrite ?bool_decide_eq_false_2 by exact Hne; reflexivity.
Qed.

(** [WorkflowExecutionDetails] on any event. *)
Lemma WorkflowExecutionDetails_as_touch
    (eid : option Z) (ev : StreamEvent) (st : Details) :
  scannedVideos (WorkflowExecutionDetails eid ev st).1
  = match ev with
    | videos_scanned _ vs => vs
    | _ => match entry_change_details ev with
           | Some (i, f) => touch i f (scannedVideos st)
           | None => scannedVideos st
           end
    end.
Proof.
  destruct ev; simpl; rewrite ?update_at_touch; reflexivity.
Qed.



Lemma WorkflowProgress_stream_app (eid : option Z) (evs1 evs2 : list StreamEvent)
    (videos : list VideoProgress) :
  WorkflowProgress_stream eid (evs1 ++ evs2) videos
  = WorkflowProgress_stream eid evs2 (WorkflowProgress_stream eid evs1 videos).
Proof. unfold WorkflowProgress_stream. apply foldl_app. Qed.

Lemma WorkflowExecutionDetails_stream_app (eid : option Z) (evs1 evs2 : list StreamEvent)
    (st : Details) :
  WorkflowExecutionDetails_stream eid (evs1 ++ evs2) st
  = WorkflowExecutionDetails_stream eid evs2 (WorkflowExecutionDetails_stream eid evs1 st).
Proof. unfold WorkflowExecutionDetails_stream. apply foldl_app. Qed.

Lemma touch_middle (f : VideoProgress → VideoProgress) (pre post : list VideoProgress)
    (v : VideoProgress) :
  touch (Z.of_nat (length pre)) f (pre ++ v :: post) = pre ++ f v :: post.
Proof.
  unfold touch. rewrite decide_True by lia. rewrite Nat2Z.id.
  rewrite alter_app_r_alt by lia. by rewrite Nat.sub_diag.
Qed.

(** One [lifecycle] completes the entry it names and no other. *)
Lemma lifecycle_completes_one (e : Z) (eid : option Z) (execution : option Execution)
    (pre post : list VideoProgress) (v : VideoProgress) :
  WorkflowProgress_stream (Some e) (lifecycle e (length pre)) (pre ++ v :: post)
  = pre ++ completed_entry v :: post
  ∧ WorkflowExecutionDetails_stream eid (lifecycle e (length pre))
      (mkDetails execution (pre ++ v :: post))
    = mkDetails execution (pre ++ completed_entry_details v :: post).
Proof.
  split.
  - unfold WorkflowProgress_stream, lifecycle. cbn [foldl].
    rewrite !WorkflowProgress_as_touch by reflexivity. cbn [entry_change].
    rewrite !touch_middle. reflexivity.
  - unfold WorkflowExecutionDetails_stream, lifecycle, WorkflowExecutionDetails.
    simpl. rewrite !update_at_touch, !touch_middle.
    unfold completed_entry_details. destruct v as [t th s c [m |] err]; reflexivity.
Qed.

Lemma lifecycles_complete_from (e : Z) (eid : option Z) (execution : option Execution)
    (videos : list VideoProgress) :
  ∀ pre : list VideoProgress,
    WorkflowProgress_stream (Some e)
      (flat_map (lifecycle e) (seq (length pre) (length videos))) (pre ++ videos)
    = pre ++ (completed_entry <$> videos)
    ∧ WorkflowExecutionDetails_stream eid
        (flat_map (lifecycle e) (seq (length pre) (length videos)))
        (mkDetails execution (pre ++ videos))
      = mkDetails execution (pre ++ (completed_entry_details <$> videos)).
Proof.
  induction videos as [| v videos IH]; intros pre.
  - simpl. by rewrite !app_nil_r.
  - simpl length. rewrite <- cons_seq. cbn [flat_map].
    rewrite WorkflowProgress_stream_app, WorkflowExecutionDetails_stream_app.
    destruct (lifecycle_completes_one e eid execution pre videos v) as [-> ->].
    destruct (IH (pre ++ [completed_entry v])) as [IHp _].
    destruct (IH (pre ++ [completed_entry_details v])) as [_ IHd].
    rewrite length_app, Nat.add_1_r in IHp, IHd. simpl in IHp, IHd.
    rewrite <- !app_assoc in IHp, IHd. simpl in IHp, IHd.
    rewrite !fmap_cons. split; assumption.
Qed.

Lemma counts_of_completed (videos : list VideoProgress) :
  completedCount (completed_entry <$> videos) = length videos
  ∧ failedCount (completed_entry <$> videos) = 0.
Proof.
  unfold completedCount, failedCount.
  induction videos as [| v videos IH]; [by split |].
  rewrite fmap_cons.
  rewrite (filter_cons_True (fun v => status v = "completed")) by reflexivity.
  rewrite (filter_cons_False (fun v => status v = "failed")) by discriminate.
  simpl. destruct IH as [-> ->]. by split.
Qed.

(** X9: when every video of an array of any length goes through
    [video_started], [video_stage_update(download, running)] and
    [video_completed], in that order and video after video, both pages end
    with every entry completed and without a current stage, its title,
    thumbnail and error as before and [download] marked in its stage map;
    the completed count is the length of the array and the failed count
    zero. *)
Theorem all_lifecycles_complete_all_videos
    (e : Z) (eid : option Z) (execution : option Execution)
    (videos : list VideoProgress) :
  let stream := flat_map (lifecycle e) (seq 0 (length videos)) in
  WorkflowProgress_stream (Some e) stream videos = completed_entry <$> videos
  ∧ WorkflowExecutionDetails_stream eid stream (mkDetails execution videos)
    = mkDetails execution (completed_entry_details <$> videos)
  ∧ completedCount (WorkflowProgress_stream (Some e) stream videos) = length videos
  ∧ failedCount (WorkflowProgress_stream (Some e) stream videos) = 0.
Proof.
  intros stream. subst stream.
  destruct (lifecycles_complete_from e eid execution videos []) as [Hp Hd].
  simpl in Hp, Hd. rewrite Hp, Hd. split; [reflexivity |]. split; [reflexivity |].
  apply counts_of_completed.
Qed.

Lemma WorkflowProgress_entry (e : Z) (ev : StreamEvent) (videos : list VideoProgress) :
  execution_id_of ev = e → is_videos_scanned ev = false →
  (WorkflowProgress (Some e) (Some ev) videos).1
  = match entry_change ev with
    | Some (i, f) => touch i f videos
    | None => videos
    end.
Proof.
  intros He Hev. rewrite WorkflowProgress_as_touch by exact He.
  destruct ev; simpl in Hev; try discriminate; reflexivity.
Qed.

Lemma WorkflowExecutionDetails_entry (eid : option Z) (ev : StreamEvent) (st : Details) :
  is_videos_scanned ev = false →
  scannedVideos (WorkflowExecutionDetails eid ev st).1
  = match entry_change_details ev with
    | Some (i, f) => touch i f (scannedVideos st)
    | None => scannedVideos st
    end.
Proof.
  intros Hev. rewrite WorkflowExecutionDetails_as_touch.
  destruct ev; simpl in Hev; try discriminate; reflexivity.
Qed.







Lemma entry_change_idempotent (ev : StreamEvent) (i : Z) (f : VideoProgress → VideoProgress) :
  entry_change ev = Some (i, f) ∨ entry_change_details ev = Some (i, f) →
  ∀ v, f (f v) = f v.
Proof.
  intros [Hf | Hf] v; destruct ev; simpl in Hf; try discriminate;
    injection Hf as <- <-; destruct v as [t th s c [m |] err];
    unfold with_stages, with_current_stage, with_status, with_error; simpl;
    rewrite ?insert_insert_eq; try reflexivity;
    case_decide; reflexivity.
Qed.

Lemma touch_idempotent (i : Z) (f : VideoProgress → VideoProgress) (l : list VideoProgress) :
  (∀ v, f (f v) = f v) → touch i f (touch i f l) = touch i f l.
Proof.
  intros Hf. unfold touch. case_decide; [| reflexivity].
  rewrite list_alter_alter_eq. apply list_alter_ext; [| reflexivity].
  intros v _. apply Hf.
Qed.

(** X11: delivering an event twice in a row is as delivering it once: in
    [WorkflowProgress] for every event, in [WorkflowExecutionDetails] for
    every event but [log], whose line is then appended twice. *)
Theorem redelivery_is_harmless
    (eid : option Z) (ev : StreamEvent)
    (videos : list VideoProgress) (st : Details) :
  (WorkflowProgress eid (Some ev) (WorkflowProgress eid (Some ev) videos).1).1
  = (WorkflowProgress eid (Some ev) videos).1
  ∧ (is_log ev = false →
     (WorkflowExecutionDetails eid ev (WorkflowExecutionDetails eid ev st).1).1
     = (WorkflowExecutionDetails eid ev st).1)
  ∧ (∀ e ts msg ex, ev = log e ts msg → execution st = Some ex →
       execution (WorkflowExecutionDetails eid ev (WorkflowExecutionDetails eid ev st).1).1
       ≠ execution (WorkflowExecutionDetails eid ev st).1).
Proof.
  split; [| split].
  - destruct (decide (Some (execution_id_of ev) = eid)) as [<- | Hne].
    + destruct (is_videos_scanned ev) eqn:Hev.
      * destruct ev; simpl in Hev; try discriminate.
        by rewrite !WorkflowProgress_as_touch.
      * rewrite !WorkflowProgress_entry by (reflexivity || exact Hev).
        destruct (entry_change ev) as [[i f] |] eqn:Hf; [| reflexivity].
        apply touch_idempotent. apply (entry_change_idempotent ev i f). by left.
    + by rewrite !WorkflowProgress_other.
  - intros Hlog. destruct st as [ex vs].
    assert (Hex : ∀ st0, execution (WorkflowExecutionDetails eid ev st0).1 = execution st0)
      by (intros st0; destruct ev; simpl in Hlog; try discriminate; reflexivity).
    assert (Hvs : scannedVideos
                    (WorkflowExecutionDetails eid ev
                       (WorkflowExecutionDetails eid ev (mkDetails ex vs)).1).1
                  = scannedVideos (WorkflowExecutionDetails eid ev (mkDetails ex vs)).1).
    { destruct (is_videos_scanned ev) eqn:Hev.
      - destruct ev; simpl in Hev; try discriminate. reflexivity.
      - rewrite !WorkflowExecutionDetails_entry by exact Hev.
        destruct (entry_change_details ev) as [[i f] |] eqn:Hf; [| reflexivity].
        apply touch_idempotent. apply (entry_change_idempotent ev i f). by right. }
    specialize (Hex (WorkflowExecutionDetails eid ev (mkDetails ex vs)).1) as Hex2.
    destruct (WorkflowExecutionDetails eid ev
                (WorkflowExecutionDetails eid ev (mkDetails ex vs)).1).1 as [ex2 vs2].
    destruct (WorkflowExecutionDetails eid ev (mkDetails ex vs)).1 as [ex1 vs1].
    simpl in *. congruence.
  - intros e ts msg ex -> Hex. simpl. rewrite Hex. simpl.
    intros Heq. injection Heq as Heq.
    apply (f_equal length) in Heq. rewrite !length_app in Heq. simpl in Heq. lia.
Qed.

Lemma WorkflowExecutionDetails_log_step (eid : option Z) (e : Z) (l : string * string)
    (ex : Execution) (vs : list VideoProgress) :
  (WorkflowExecutionDetails eid (log e l.1 l.2) (mkDetails (Some ex) vs)).1
  = mkDetails (Some (mkExecution (exec_status ex)
                       (Some (default [] (execution_log ex) ++ [log_line l])))) vs.
Proof. reflexivity. Qed.

(** X12: log events reach the execution log in arrival order, one line
    [[timestamp] message] each, after the lines already there, and touch
    neither the status nor the videos; while no execution is loaded they
    are dropped, so lines that arrive before the snapshot are lost. *)
Theorem log_lines_append_in_order
    (eid : option Z) (e : Z) (lines : list (string * string)) (st : Details) :
  (∀ ex, execution st = Some ex →
     ∃ ex',
       WorkflowExecutionDetails_stream eid (log_events e lines) st
       = mkDetails (Some ex') (scannedVideos st)
       ∧ exec_status ex' = exec_status ex
       ∧ default [] (execution_log ex')
         = default [] (execution_log ex) ++ (log_line <$> lines))
  ∧ (execution st = None →
     WorkflowExecutionDetails_stream eid (log_events e lines) st = st).
Proof.
  destruct st as [exo vs]. simpl. split.
  - intros ex ->. revert ex.
    induction lines as [| l lines IH] using rev_ind; intros ex.
    + exists ex. simpl. by rewrite app_nil_r.
    + destruct (IH ex) as (ex1 & Hrun & Hst & Hlog).
      unfold log_events. rewrite fmap_app, WorkflowExecutionDetails_stream_app.
      fold (log_events e lines). rewrite Hrun.
      unfold WorkflowExecutionDetails_stream. cbn [fmap list_fmap foldl].
      rewrite WorkflowExecutionDetails_log_step.
      eexists. split; [reflexivity |]. simpl. split; [exact Hst |].
      rewrite Hlog, fmap_app, app_assoc. reflexivity.
  - intros ->. induction lines as [| l lines IH]; [reflexivity |].
    unfold log_events, WorkflowExecutionDetails_stream in *. simpl. exact IH.
Qed.

(** X18: [loadData] of [WorkflowProgress] never loads anything: [api] has
    no [executions] namespace, so reading [api.executions.get] throws
    before any request is made; the error is caught, the page keeps the
    execution, workflow and videos it had, and only [loading] is cleared,
    whatever the backend would have answered. *)
Theorem loadData_never_loads (answers : option Snapshot) (st : Page) :
  (∃ e, Api.api_method "executions" "get" = Js.Throw e ∧ Js.name e = "TypeError")
  ∧ (∃ e, Api.api_method "workflows" "get" = Js.Throw e ∧ Js.name e = "TypeError")
  ∧ Api.api_method "workflows" "getExecutionDetails" = Js.Normal tt
  ∧ loadData answers st
    = (mkPage (page_execution st) (page_workflow st) (page_videos st) false, []).
Proof.
  split; [eexists; split; reflexivity |].
  split; [eexists; split; reflexivity |].
  split; reflexivity.
Qed.

End ProgressFacts.

(* ===================================================================== *)
(** * Properties of the workflow editor graph *)
(* ===================================================================== *)

Section BuilderFacts.
Import Builder.

Lemma recomputeStart_ids (g : Graph) :
  id <$> nodes (recomputeStart g) = id <$> nodes g.
Proof.
  unfold recomputeStart. simpl. rewrite <- list_fmap_compose.
  apply list_fmap_ext. intros _ n _. simpl. case_decide; reflexivity.
Qed.

Lemma recomputeStart_edges (g : Graph) : edges (recomputeStart g) = edges g.
Proof. reflexivity. Qed.

(** When no edge dangles, a node has no incomer exactly when no edge
    enters it. *)
Lemma getIncomers_nil (n : Node) (g : Graph) :
  no_dangling g → edges_have_ends g →
  bool_decide (length (getIncomers n (nodes g) (edges g)) = 0)
  = bool_decide (Forall (fun e => target e ≠ id n) (edges g)).
Proof.
  intros Hnd Hends. apply bool_decide_ext. unfold getIncomers.
  destruct (decide (id n = "")) as [Hempty | Hid].
  - split; [| reflexivity]. intros _. apply Forall_forall. intros e He.
    rewrite Hempty. apply (Hends e He).
  - split.
    + intros Hlen. apply nil_length_inv in Hlen.
      apply Forall_forall. intros e He Htgt.
      destruct (Hnd e He) as [Hsrc _].
      apply list_elem_of_fmap in Hsrc as (m & Hm & Hin).
      eapply (filter_nil_not_elem_of _ _ m); [exact Hlen | | exact Hin].
      simpl. rewrite <- Hm. apply list_elem_of_fmap. exists e. split; [reflexivity |].
      apply list_elem_of_filter. split; assumption.
    + intros Hall. rewrite Forall_forall in Hall.
      replace (filter (fun e => target e = id n) (edges g)) with (@nil Edge).
      * simpl. replace (filter _ (nodes g)) with (@nil Node); [reflexivity |].
        symmetry. apply elem_of_nil_inv. intros m Hm.
        apply list_elem_of_filter in Hm as [Hm _]. by apply elem_of_nil in Hm.
      * symmetry. apply elem_of_nil_inv. intros e He.
        apply list_elem_of_filter in He as [Ht He]. exact (Hall e He Ht).
Qed.

(** The recomputation makes every flag exact. *)
Lemma recomputeStart_exact (g : Graph) :
  no_dangling g → edges_have_ends g → start_flags_exact (recomputeStart g).
Proof.
  intros Hnd Hends n' Hn'. rewrite recomputeStart_edges.
  unfold recomputeStart in Hn'. simpl in Hn'.
  apply list_elem_of_fmap in Hn' as (n & -> & Hn). simpl.
  pose proof (getIncomers_nil n g Hnd Hends) as Hinc.
  destruct (decide (isStart (data n)
                    ≠ Some (bool_decide (length (getIncomers n (nodes g) (edges g)) = 0))))
    as [Hflag | Hflag]; simpl; rewrite <- Hinc; [reflexivity |].
  destruct (decide (isStart (data n)
                    = Some (bool_decide (length (getIncomers n (nodes g) (edges g)) = 0))))
    as [Heq | Hne]; [exact Heq | contradiction].
Qed.

Lemma recomputeStart_no_dangling (g : Graph) :
  no_dangling g → no_dangling (recomputeStart g).
Proof.
  intros Hnd e He. rewrite recomputeStart_ids. apply Hnd. exact He.
Qed.

(** Adding a node leaves every edge attached. *)
Lemma add_node_no_dangling (g : Graph) (n : Node) :
  no_dangling g → no_dangling (mkGraph (nodes g ++ [n]) (edges g) (selectedNode g)).
Proof.
  intros Hnd e He. simpl in *. rewrite fmap_app.
  destruct (Hnd e He) as [Hs Ht]. split; apply elem_of_app; left; assumption.
Qed.

(** [addEdge] adds at most the edge between the two ends it was given. *)
Lemma addEdge_elem (params : Connection) (eds : list Edge) (e : Edge) :
  e ∈ addEdge params eds →
  e ∈ eds ∨ (source e = conn_source params ∧ target e = conn_target params
             ∧ conn_source params ≠ "" ∧ conn_target params ≠ "").
Proof.
  unfold addEdge. destruct (decide _) as [Hempty | Hends]; [by left |].
  destruct (decide _) as [_ | _]; [by left |].
  intros He. apply elem_of_app in He as [He | He]; [by left |].
  apply list_elem_of_singleton in He as ->. right. simpl.
  repeat split; try reflexivity; intros Heq; apply Hends; [left | right]; exact Heq.
Qed.

(** Deleting a node removes every edge that touches it. *)
Lemma handleDeleteNode_cascades (nodeId : string) (g : Graph) (e : Edge) :
  e ∈ edges (handleDeleteNode nodeId g) → source e ≠ nodeId ∧ target e ≠ nodeId.
Proof.
  unfold handleDeleteNode. simpl. intros He.
  apply list_elem_of_filter in He as [He _]. exact He.
Qed.

Lemma handleDeleteNode_no_dangling (nodeId : string) (g : Graph) :
  no_dangling g → no_dangling (handleDeleteNode nodeId g).
Proof.
  intros Hnd e He. unfold handleDeleteNode in *. simpl in *.
  apply list_elem_of_filter in He as [[Hs Ht] He].
  destruct (Hnd e He) as [Hsrc Htgt].
  split.
  - apply list_elem_of_fmap in Hsrc as (m & Hm & Hin).
    apply list_elem_of_fmap. exists m. split; [exact Hm |].
    apply list_elem_of_filter. split; [congruence | exact Hin].
  - apply list_elem_of_fmap in Htgt as (m & Hm & Hin).
    apply list_elem_of_fmap. exists m. split; [exact Hm |].
    apply list_elem_of_filter. split; [congruence | exact Hin].
Qed.

Lemma empty_consistent : consistent empty.
Proof.
  split; [| split]; intros x Hx; simpl in Hx; by apply elem_of_nil in Hx.
Qed.

Lemma apply_consistent (op : Op) (g : Graph) :
  consistent g → drawn_on g op = true → consistent (apply op g).
Proof.
  intros (Hnd & Hends & _) Hdrawn.
  assert (Hpre : ∃ g', apply op g = recomputeStart g' ∧ no_dangling g' ∧ edges_have_ends g').
  { destruct op as [ty pos now | ty now | params | nodeId]; unfold apply.
    - eexists. split; [reflexivity |]. unfold onDrop. case_decide; [by split |].
      split; [by apply add_node_no_dangling | exact Hends].
    - eexists. split; [reflexivity |].
      split; [by apply add_node_no_dangling | exact Hends].
    - eexists. split; [reflexivity |].
      simpl in Hdrawn. apply andb_prop in Hdrawn as [Hs Ht].
      apply bool_decide_eq_true in Hs. apply bool_decide_eq_true in Ht.
      split; intros e He; simpl in He;
        apply addEdge_elem in He as [He | (Hes & Het & Hns & Hnt)].
      + exact (Hnd e He).
      + simpl. rewrite Hes, Het. by split.
      + exact (Hends e He).
      + rewrite Hes, Het. by split.
    - eexists. split; [reflexivity |].
      split; [by apply handleDeleteNode_no_dangling |].
      intros e He. simpl in He. apply list_elem_of_filter in He as [_ He].
      exact (Hends e He). }
  destruct Hpre as (g' & -> & Hnd' & Hends').
  split; [by apply recomputeStart_no_dangling |].
  split; [exact Hends' | by apply recomputeStart_exact].
Qed.

Lemma session_consistent (ops : list Op) :
  ∀ g g', consistent g → session ops g = Some g' → consistent g'.
Proof.
  induction ops as [| op ops IH]; intros g g' Hg Hrun; simpl in Hrun.
  - by injection Hrun as <-.
  - destruct (drawn_on g op) eqn:Hd; [| discriminate].
    eapply IH; [| exact Hrun]. by apply apply_consistent.
Qed.

(** C8: every graph reached from the empty editor by a sequence of node
    additions (drop or palette), connections as the canvas emits them,
    between two nodes that are on it, and node deletions has both ends of
    every edge among the ids of its nodes,
    and every node's [isStart] flag says whether no edge has that node as
    target, the recomputation having run after each change; a further
    deletion leaves no edge that touches the deleted node. *)
Theorem session_keeps_graph_consistent (ops : list Op) (g : Graph) :
  session ops empty = Some g →
  no_dangling g
  ∧ start_flags_exact g
  ∧ ∀ nodeId e, e ∈ edges (apply (DeleteNode nodeId) g) →
                source e ≠ nodeId ∧ target e ≠ nodeId.
Proof.
  intros Hrun.
  destruct (session_consistent ops empty g empty_consistent Hrun) as (Hnd & _ & Hst).
  split; [exact Hnd |]. split; [exact Hst |].
  intros nodeId e He. unfold apply in He. rewrite recomputeStart_edges in He.
  by apply handleDeleteNode_cascades in He.
Qed.

(** The theorem at a session that adds three nodes, chains them and deletes
    the middle one. *)
Lemma session_keeps_graph_consistent_witness :
  let ops := [Palette "scan" 1000; Palette "download" 1001;
              Drop "upload" (mkPosition 40 60) 1002;
              Connect (mkConnection "scan-1000" "download-1001");
              Connect (mkConnection "download-1001" "upload-1002");
              DeleteNode "download-1001"] in
  ∃ g, session ops empty = Some g
       ∧ id <$> nodes g = ["scan-1000"; "upload-1002"]
       ∧ edges g = []
       ∧ no_dangling g ∧ start_flags_exact g.
Proof.
  intros ops.
  destruct (session ops empty) as [g|] eqn:Hrun; [| vm_compute in Hrun; discriminate].
  exists g. split; [reflexivity |].
  destruct (session_keeps_graph_consistent ops g Hrun) as (Hnd & Hst & _).
  vm_compute in Hrun. injection Hrun as <-.
  split; [reflexivity |]. split; [reflexivity |]. split; assumption.
Defined.

(** ** Further properties of the editor *)

Lemma same_but_active_refl (n : Node) : same_but_active n n.
Proof. by repeat split. Qed.

Lemma same_but_active_saved (l k : list Node) :
  Forall2 same_but_active l k → set_active false <$> k = set_active false <$> l.
Proof.
  induction 1 as [| n n' l k (Hid & Hty & Hpos & Hl & Hc & Hs) _ IH]; [reflexivity |].
  rewrite !fmap_cons, IH. f_equal.
  unfold set_active. by rewrite Hid, Hty, Hpos, Hl, Hc, Hs.
Qed.

Lemma canvas_onmessage_nodes (ev : CanvasEvent) (ed : Editor) (l : list Node) :
  Forall2 same_but_active l (nodes (graph ed)) →
  Forall2 same_but_active l (nodes (graph (canvas_onmessage ev ed))).
Proof.
  intros Hl. destruct ev; simpl; try exact Hl;
    apply Forall2_fmap_r; eapply Forall2_impl; [exact Hl | | exact Hl | | exact Hl | | exact Hl |];
    intros n n' Hn; simpl; try case_decide; exact Hn.
Qed.

Lemma canvas_onmessage_rest (ev : CanvasEvent) (ed : Editor) :
  edges (graph (canvas_onmessage ev ed)) = edges (graph ed)
  ∧ selectedNode (graph (canvas_onmessage ev ed)) = selectedNode (graph ed)
  ∧ currentWorkflow (canvas_onmessage ev ed) = currentWorkflow ed
  ∧ workflowName (canvas_onmessage ev ed) = workflowName ed.
Proof. destruct ev; by repeat split. Qed.

Lemma canvas_stream_snoc (evs : list CanvasEvent) (ev : CanvasEvent) (ed : Editor) :
  canvas_stream (evs ++ [ev]) ed = canvas_onmessage ev (canvas_stream evs ed).
Proof. unfold canvas_stream. by rewrite foldl_app. Qed.

(** X13: the run-time overlay is display only.  Whatever frames arrive,
    the nodes keep their number, order, ids, types, positions, labels,
    configuration and start flags, the edges and the selection are
    untouched, and the request [handleSave] sends is the one it would have
    sent before the frames, with every node inactive; and right after
    [workflow_completed] or [workflow_failed] no node is shown active and
    the editor is no longer running. *)
Theorem canvas_events_are_display_only (evs : list CanvasEvent) (ed : Editor) :
  Forall2 same_but_active (nodes (graph ed)) (nodes (graph (canvas_stream evs ed)))
  ∧ edges (graph (canvas_stream evs ed)) = edges (graph ed)
  ∧ selectedNode (graph (canvas_stream evs ed)) = selectedNode (graph ed)
  ∧ handleSave (canvas_stream evs ed) = handleSave ed
  ∧ Forall (fun n => isActive (data n) = Some false) (workflowData (graph ed)).1
  ∧ ∀ ev, ev = workflow_completed ∨ ev = workflow_failed →
          Forall (fun n => isActive (data n) = Some false)
                 (nodes (graph (canvas_stream (evs ++ [ev]) ed)))
          ∧ isRunning (canvas_stream (evs ++ [ev]) ed) = false.
Proof.
  assert (Hinv : Forall2 same_but_active (nodes (graph ed)) (nodes (graph (canvas_stream evs ed)))
                 ∧ edges (graph (canvas_stream evs ed)) = edges (graph ed)
                 ∧ selectedNode (graph (canvas_stream evs ed)) = selectedNode (graph ed)
                 ∧ currentWorkflow (canvas_stream evs ed) = currentWorkflow ed
                 ∧ workflowName (canvas_stream evs ed) = workflowName ed).
  { induction evs as [| ev evs IH] using rev_ind.
    - split; [| done]. apply Forall_Forall2_diag, Forall_forall. intros n _.
      apply same_but_active_refl.
    - destruct IH as (Hn & He & Hs & Hw & Hname). rewrite canvas_stream_snoc.
      destruct (canvas_onmessage_rest ev (canvas_stream evs ed)) as (-> & -> & -> & ->).
      split; [by apply canvas_onmessage_nodes | done]. }
  destruct Hinv as (Hn & He & Hs & Hw & Hname).
  split; [exact Hn |]. split; [exact He |]. split; [exact Hs |].
  split; [| split].
  - unfold handleSave, workflowData. rewrite Hw, Hname, He.
    by rewrite (same_but_active_saved _ _ Hn).
  - simpl. apply Forall_fmap, Forall_forall. by intros n _.
  - intros ev Hev. rewrite canvas_stream_snoc.
    destruct Hev as [-> | ->]; simpl; (split; [| reflexivity]);
      apply Forall_fmap, Forall_forall; by intros n _.
Qed.

Lemma filter_unique_id (l : list Node) (n : Node) :
  NoDup (id <$> l) → n ∈ l → filter (fun m => id m = id n) l = [n].
Proof.
  induction l as [| m l IH]; intros Hnd Hin; [by apply elem_of_nil in Hin |].
  rewrite fmap_cons in Hnd. apply NoDup_cons in Hnd as [Hm Hnd].
  apply elem_of_cons in Hin as [-> | Hin].
  - rewrite filter_cons_True by reflexivity. f_equal.
    apply elem_of_nil_inv. intros x Hx. apply list_elem_of_filter in Hx as [Hid Hx].
    apply Hm. rewrite <- Hid. by apply list_elem_of_fmap_2.
  - rewrite filter_cons_False; [by apply IH |].
    intros Hid. apply Hm. rewrite Hid. by apply list_elem_of_fmap_2.
Qed.

(** X14: [updateNodeConfig] with a selection that carries the id of a node
    [n] of the graph, node ids being distinct.  The node is replaced by
    itself with [config[key] = value] and its other settings unchanged, no
    other node changes, ids and edges stay as they are, and the selection
    becomes that updated node, built from the node in the graph and not
    from the possibly outdated copy that was selected.  Without a selection
    nothing changes. *)
Theorem updateNodeConfig_updates_the_selected_node
    (key : string) (value : Js.json) (g : Graph) (n sel : Node) :
  NoDup (id <$> nodes g) → n ∈ nodes g → id sel = id n →
  let g' := updateNodeConfig key value (onNodeClick sel g) in
  selectedNode g' = Some (with_config key value n)
  ∧ with_config key value n ∈ nodes g'
  ∧ config (data (with_config key value n)) !! key = Some value
  ∧ (∀ k, k ≠ key →
          config (data (with_config key value n)) !! k = config (data n) !! k)
  ∧ (∀ m, m ∈ nodes g → id m ≠ id n → m ∈ nodes g')
  ∧ id <$> nodes g' = id <$> nodes g
  ∧ edges g' = edges g
  ∧ updateNodeConfig key value (mkGraph (nodes g) (edges g) None)
    = mkGraph (nodes g) (edges g) None.
Proof.
  intros Hnd Hin Hsel g'. subst g'. unfold updateNodeConfig, onNodeClick. simpl.
  rewrite Hsel, (filter_unique_id _ _ Hnd Hin). simpl.
  split; [reflexivity |].
  split.
  { apply list_elem_of_fmap. exists n. split; [| exact Hin]. by rewrite decide_True. }
  split; [apply lookup_insert_eq |].
  split; [intros k Hk; apply lookup_insert_ne; congruence |].
  split.
  { intros m Hm Hid. apply list_elem_of_fmap. exists m. split; [| exact Hm].
    by rewrite decide_False. }
  split; [| by split].
  rewrite <- list_fmap_compose. apply list_fmap_ext. intros _ m _. simpl.
  case_decide; reflexivity.
Qed.

Lemma updateNodeConfig_updates_the_selected_node_witness :
  let g := applyAll [Palette "scan" 1000; Palette "upload" 1001] empty in
  let n := mkNode "scan-1000" "scan" (mkPosition 250 50)
                  (mkData "Scan" ∅ (Some true) None) in
  let stale := newNode "scan" (mkPosition 250 50) 1000 in
  NoDup (id <$> nodes g) ∧ n ∈ nodes g ∧ id stale = id n
  ∧ selectedNode (updateNodeConfig "url" (Js.JStr "https://x") (onNodeClick stale g))
    = Some (with_config "url" (Js.JStr "https://x") n).
Proof.
  intros g n stale.
  assert (Hnd : NoDup (id <$> nodes g)).
  { vm_compute. apply NoDup_cons. split; [| apply NoDup_singleton].
    intros Hin. apply list_elem_of_singleton in Hin. discriminate. }
  assert (Hin : n ∈ nodes g) by (vm_compute; apply list_elem_of_here).
  assert (Hid : id stale = id n) by reflexivity.
  split; [exact Hnd |]. split; [exact Hin |]. split; [exact Hid |].
  apply (updateNodeConfig_updates_the_selected_node
           "url" (Js.JStr "https://x") g n stale Hnd Hin Hid).
Defined.

Lemma filter_length_ids (ids : list string) (l k : list Node) :
  id <$> l = id <$> k →
  length (filter (fun n => id n ∈ ids) l) = length (filter (fun n => id n ∈ ids) k).
Proof.
  revert k. induction l as [| n l IH]; intros [| m k] Hids; try discriminate; [reflexivity |].
  rewrite !fmap_cons in Hids. injection Hids as Hid Hids.
  rewrite !filter_cons, Hid. destruct (decide (id m ∈ ids)); simpl; auto.
Qed.

Lemma getIncomers_length_ids (n n' : Node) (l k : list Node) (eds : list Edge) :
  id n' = id n → id <$> l = id <$> k →
  length (getIncomers n' l eds) = length (getIncomers n k eds).
Proof.
  intros Hid Hids. unfold getIncomers. rewrite Hid.
  case_decide; [reflexivity |].
  by apply filter_length_ids.
Qed.

(** X15: the recomputation of the start flags is stable and touches nothing
    else: running it a second time changes nothing more, and it keeps the
    number, order, ids, types, positions, labels, configuration and activity
    flags of the nodes, the edges and the selection. *)
Theorem recomputeStart_is_stable (g : Graph) :
  recomputeStart (recomputeStart g) = recomputeStart g
  ∧ Forall2 same_but_start (nodes g) (nodes (recomputeStart g))
  ∧ edges (recomputeStart g) = edges g
  ∧ selectedNode (recomputeStart g) = selectedNode g.
Proof.
  split; [| split; [| by split]].
  - set (g1 := recomputeStart g).
    assert (Hfix :
      (fun node =>
         let incoming := getIncomers node (nodes g1) (edges g1) in
         let isStart' := bool_decide (length incoming = 0) in
         if decide (isStart (data node) ≠ Some isStart')
         then mkNode (id node) (type node) (position node)
                     (mkData (label (data node)) (config (data node))
                             (Some isStart') (isActive (data node)))
         else node) <$> nodes g1
      = nodes g1).
    { rewrite <- (list_fmap_id (nodes g1)) at 2.
      apply list_fmap_ext. intros i n' Hn'. simpl.
      apply list_elem_of_lookup_2 in Hn'. subst g1.
      unfold recomputeStart in Hn' at 1. simpl in Hn'.
      apply list_elem_of_fmap in Hn' as (n & -> & Hn).
      set (b := bool_decide (length (getIncomers n (nodes g) (edges g)) = 0)).
      assert (Hlen : ∀ n', id n' = id n →
                bool_decide
                  (length (getIncomers n' (nodes (recomputeStart g)) (edges g)) = 0) = b).
      { intros n' Hid. subst b. apply bool_decide_ext.
        by rewrite (getIncomers_length_ids n n' _ (nodes g) _ Hid (recomputeStart_ids g)). }
      rewrite ?recomputeStart_edges.
      destruct (decide (isStart (data n) ≠ Some b)) as [Hflag | Hflag].
      + rewrite Hlen by reflexivity. simpl. by rewrite decide_False by (intros H; by apply H).
      + rewrite Hlen by reflexivity. by rewrite decide_False by exact Hflag. }
    unfold recomputeStart. cbv zeta in Hfix. rewrite Hfix. by destruct g1.
  - unfold recomputeStart. simpl. rewrite Forall2_fmap_r.
    apply Forall_Forall2_diag. apply Forall_forall.
    intros n _. simpl. case_decide; by repeat split.
Qed.

Lemma filter_twice {A} (P : A → Prop) `{∀ x, Decision (P x)} (l : list A) :
  filter P (filter P l) = filter P l.
Proof.
  induction l as [| x l IH]; [reflexivity |].
  rewrite filter_cons. destruct (decide (P x)) as [Hx | Hx]; [| exact IH].
  rewrite filter_cons_True by exact Hx. by rewrite IH.
Qed.

Lemma filter_keeps_all {A} (P : A → Prop) `{∀ x, Decision (P x)} (l : list A) :
  Forall P l → filter P l = l.
Proof.
  induction 1 as [| x l Hx _ IH]; [reflexivity |].
  rewrite filter_cons_True by exact Hx. by rewrite IH.
Qed.

(** X16: [handleDeleteNode(nodeId)] leaves no node with that id (even when
    several nodes share it), keeps every other node and every edge that does
    not touch the id, keeps the selection unless it is the deleted node,
    does nothing more when repeated, and changes neither nodes nor edges
    when no node of a graph without dangling edges has that id. *)
Theorem handleDeleteNode_removes_exactly (nodeId : string) (g : Graph) :
  (nodeId ∉ (id <$> nodes (handleDeleteNode nodeId g)))
  ∧ (∀ n, n ∈ nodes g → id n ≠ nodeId → n ∈ nodes (handleDeleteNode nodeId g))
  ∧ (∀ e, e ∈ edges g → source e ≠ nodeId → target e ≠ nodeId →
          e ∈ edges (handleDeleteNode nodeId g))
  ∧ (∀ sel, selectedNode g = Some sel →
            selectedNode (handleDeleteNode nodeId g)
            = if decide (id sel = nodeId) then None else Some sel)
  ∧ handleDeleteNode nodeId (handleDeleteNode nodeId g) = handleDeleteNode nodeId g
  ∧ (no_dangling g → nodeId ∉ (id <$> nodes g) →
     nodes (handleDeleteNode nodeId g) = nodes g
     ∧ edges (handleDeleteNode nodeId g) = edges g).
Proof.
  unfold handleDeleteNode. simpl.
  split.
  { intros Hin. apply list_elem_of_fmap in Hin as (n & -> & Hn).
    apply list_elem_of_filter in Hn as [Hne _]. by apply Hne. }
  split; [intros n Hn Hid; by apply list_elem_of_filter |].
  split; [intros e He Hs Ht; by apply list_elem_of_filter |].
  split; [by intros sel -> |].
  split.
  { rewrite !filter_twice. f_equal.
    destruct (selectedNode g) as [sel |]; [| reflexivity].
    destruct (decide (id sel = nodeId)) as [Heq | Hne]; [reflexivity |].
    by rewrite decide_False. }
  intros Hnd Hfresh. split; apply filter_keeps_all, Forall_forall.
  - intros n Hn Hid. apply Hfresh. rewrite <- Hid. by apply list_elem_of_fmap_2.
  - intros e He. destruct (Hnd e He) as [Hs Ht]. split; intros Heq; apply Hfresh; congruence.
Qed.

Lemma node_id_not_empty (ty : string) (now : Z) : ty +:+ "-" +:+ pretty now ≠ "".
Proof. destruct ty; discriminate. Qed.

Lemma addEdge_connects (s t : string) (eds : list Edge) :
  s ≠ "" → t ≠ "" →
  ∃ e, e ∈ addEdge (mkConnection s t) eds ∧ source e = s ∧ target e = t.
Proof.
  intros Hs Ht. unfold addEdge. simpl.
  rewrite decide_False by (intros [? | ?]; contradiction).
  destruct (decide _) as [Hex | _].
  - apply Exists_exists in Hex as (e & He & Hes & Het). by exists e.
  - eexists. split; [apply elem_of_app; right; apply list_elem_of_singleton; reflexivity |].
    by split.
Qed.

(** In a session no node has the empty id. *)
Lemma session_ids_not_empty (ops : list Op) :
  ∀ g g', Forall (fun n => id n ≠ "") (nodes g) → session ops g = Some g' →
          Forall (fun n => id n ≠ "") (nodes g').
Proof.
  induction ops as [| op ops IH]; intros g g' Hg Hrun; simpl in Hrun.
  - by injection Hrun as <-.
  - destruct (drawn_on g op); [| discriminate].
    eapply IH; [| exact Hrun].
    assert (Hids : Forall (fun i => i ≠ "") (id <$> nodes (apply op g))).
    { unfold apply. rewrite recomputeStart_ids. apply Forall_fmap.
      destruct op as [ty pos now | ty now | params | nodeId]; simpl.
      - unfold onDrop. case_decide; [exact Hg |]. simpl.
        apply Forall_app. split; [exact Hg |]. apply Forall_singleton, node_id_not_empty.
      - apply Forall_app. split; [exact Hg |]. apply Forall_singleton, node_id_not_empty.
      - exact Hg.
      - apply Forall_forall. intros n Hn. apply list_elem_of_filter in Hn as [_ Hn].
        rewrite Forall_forall in Hg. by apply Hg. }
    rewrite Forall_fmap in Hids. exact Hids.
Qed.

(** X17: what the start badge says, in any graph reached by a session.  A
    node added under an id no node has yet is flagged as a start node; after
    a connection from [s] to [t], both on the canvas, every node with id [t]
    is flagged as not being one, whether the edge was new or already
    there. *)
Theorem start_flag_follows_the_edges (ops : list Op) (g : Graph) :
  session ops empty = Some g →
  (∀ ty now,
     ty +:+ "-" +:+ pretty now ∉ (id <$> nodes g) →
     ∃ n, last (nodes (apply (Palette ty now) g)) = Some n
          ∧ id n = ty +:+ "-" +:+ pretty now
          ∧ isStart (data n) = Some true)
  ∧ (∀ s t n,
       s ∈ id <$> nodes g → t ∈ id <$> nodes g →
       n ∈ nodes (apply (Connect (mkConnection s t)) g) → id n = t →
       isStart (data n) = Some false).
Proof.
  intros Hrun.
  pose proof (session_consistent ops empty g empty_consistent Hrun) as Hg.
  pose proof (session_ids_not_empty ops empty g (Forall_nil_2 _) Hrun) as Hne.
  split.
  - intros ty now Hfresh.
    destruct (apply_consistent (Palette ty now) g Hg eq_refl) as (_ & _ & Hst).
    set (g1 := apply (Palette ty now) g) in *.
    assert (Hlast : ∃ n, last (nodes g1) = Some n ∧ id n = ty +:+ "-" +:+ pretty now).
    { subst g1. unfold apply, recomputeStart, paletteAdd. cbn [nodes edges].
      rewrite fmap_app. simpl. rewrite last_snoc. eexists. split; [reflexivity |].
      case_decide; reflexivity. }
    destruct Hlast as (n & Hlast & Hid). exists n. split; [exact Hlast |].
    split; [exact Hid |].
    rewrite (Hst n) by (apply last_Some in Hlast as [l' ->]; set_solver).
    f_equal. apply bool_decide_eq_true_2. apply Forall_forall. intros e He Ht.
    destruct Hg as (Hnd & _ & _). apply Hfresh. rewrite <- Hid, <- Ht.
    apply (Hnd e). exact He.
  - intros s t n Hs Ht Hn Hid.
    assert (Hdrawn : drawn_on g (Connect (mkConnection s t)) = true).
    { simpl. by rewrite !bool_decide_eq_true_2. }
    destruct (apply_consistent _ g Hg Hdrawn) as (_ & _ & Hst).
    rewrite (Hst n Hn). f_equal. apply bool_decide_eq_false_2.
    assert (Hsne : s ≠ "" ∧ t ≠ "").
    { rewrite Forall_forall in Hne.
      apply list_elem_of_fmap in Hs as (ns & -> & Hns).
      apply list_elem_of_fmap in Ht as (nt & -> & Hnt). split; by apply Hne. }
    destruct (addEdge_connects s t (edges g)) as (e & He & _ & Het); [tauto | tauto |].
    rewrite Forall_forall. intros Hall. apply (Hall e); [exact He | congruence].
Qed.

Lemma start_flag_follows_the_edges_witness :
  let ops := [Palette "scan" 1000; Palette "download" 1001] in
  let g2 := applyAll (ops ++ [Connect (mkConnection "scan-1000" "download-1001")]) empty in
  (∃ g, session ops empty = Some g)
  ∧ (isStart ∘ data) <$> nodes g2 = [Some true; Some false]
  ∧ ∀ n, n ∈ nodes g2 → id n = "download-1001" → isStart (data n) = Some false.
Proof.
  intros ops g2.
  destruct (session ops empty) as [g |] eqn:Hrun; [| vm_compute in Hrun; discriminate].
  split; [by exists g |]. split; [vm_compute; reflexivity |].
  destruct (start_flag_follows_the_edges ops g Hrun) as [_ Hconn].
  vm_compute in Hrun. injection Hrun as <-.
  intros n Hn Hid.
  apply (Hconn "scan-1000" "download-1001" n);
    [ vm_compute; apply list_elem_of_here
    | vm_compute; apply list_elem_of_further, list_elem_of_here
    | exact Hn | exact Hid ].
Defined.

End BuilderFacts.

(* ===================================================================== *)
(** * Properties of the scanner's selection and of the formatters *)
(* ===================================================================== *)

Section ScannerFacts.
Import Scanner.
Context {K : Type} `{EqDecision K}.

(** X19: [toggleVideo(id)] flips whether [id] is selected and nothing else:
    every other id is selected after exactly when it was before, a
    selection without repeats stays without repeats, and toggling an
    unselected id twice gives back the very same selection. *)
Theorem toggleVideo_flips_one (videoId : K) (prev : list K) :
  (videoId ∈ toggleVideo videoId prev ↔ videoId ∉ prev)
  ∧ (∀ k, k ≠ videoId → (k ∈ toggleVideo videoId prev ↔ k ∈ prev))
  ∧ (NoDup prev → NoDup (toggleVideo videoId prev))
  ∧ (videoId ∉ prev → toggleVideo videoId (toggleVideo videoId prev) = prev).
Proof.
  unfold toggleVideo. split; [| split; [| split]].
  - destruct (decide (videoId ∈ prev)) as [Hin | Hout].
    + split; [| contradiction]. intros H'. apply list_elem_of_filter in H' as [Hne _].
      by contradict Hne.
    + split; [done |]. intros _. apply elem_of_app. right. by apply list_elem_of_singleton.
  - intros k Hk. destruct (decide (videoId ∈ prev)).
    + rewrite list_elem_of_filter. tauto.
    + rewrite elem_of_app, list_elem_of_singleton. tauto.
  - intros Hnd. destruct (decide (videoId ∈ prev)) as [Hin | Hout].
    + by apply NoDup_filter.
    + apply NoDup_app. split; [exact Hnd |]. split; [| apply NoDup_singleton].
      intros x Hx Hx'. apply list_elem_of_singleton in Hx' as ->. contradiction.
  - intros Hout. rewrite (decide_False (P := videoId ∈ prev)) by exact Hout.
    rewrite decide_True by (apply elem_of_app; right; by apply list_elem_of_singleton).
    rewrite filter_app, filter_cons_False, filter_nil, app_nil_r by (intros Hne; by apply Hne).
    apply filter_keeps_all, Forall_forall. intros x Hx ->. contradiction.
Qed.

(** X20: [toggleSelectAll] decides by comparing lengths.  When the videos
    have distinct keys and the selection is a repeat-free list of keys of
    these videos, that is the right test: the selection is emptied exactly
    when every video was selected, and otherwise becomes the keys of all
    the videos, in order, so that a second press then empties it. *)
Theorem toggleSelectAll_by_length
    (selectedVideos : list K) (videos : list (ScannedVideo K)) :
  NoDup (key <$> videos) → NoDup selectedVideos →
  (∀ k, k ∈ selectedVideos → k ∈ key <$> videos) →
  ((∀ v, v ∈ videos → key v ∈ selectedVideos) → toggleSelectAll selectedVideos videos = [])
  ∧ (¬ (∀ v, v ∈ videos → key v ∈ selectedVideos) →
     toggleSelectAll selectedVideos videos = key <$> videos
     ∧ toggleSelectAll (toggleSelectAll selectedVideos videos) videos = []).
Proof.
  intros Hkeys Hsel Hsub. unfold toggleSelectAll.
  assert (Hiff : length selectedVideos = length videos
                 ↔ ∀ v, v ∈ videos → key v ∈ selectedVideos).
  { rewrite <- (length_fmap key videos). split.
    - intros Hlen v Hv.
      assert (Hperm : selectedVideos ≡ₚ key <$> videos).
      { apply submseteq_length_Permutation; [| lia]. by apply NoDup_submseteq. }
      rewrite Hperm. by apply list_elem_of_fmap_2.
    - intros Hall. apply Permutation_length, NoDup_Permutation; [done | done |].
      intros k. split; [apply Hsub |]. intros Hk.
      apply list_elem_of_fmap in Hk as (v & -> & Hv). by apply Hall. }
  split.
  - intros Hall. by rewrite decide_True by (by apply Hiff).
  - intros Hnot. rewrite (decide_False (P := length selectedVideos = length videos))
      by (by rewrite Hiff).
    split; [reflexivity |]. rewrite decide_True by apply length_fmap. reflexivity.
Qed.

End ScannerFacts.

Lemma toggleVideo_flips_one_witness :
  NoDup ["a"; "b"] ∧ ("c" ∉ ["a"; "b"])
  ∧ NoDup (Scanner.toggleVideo "c" ["a"; "b"])
  ∧ Scanner.toggleVideo "c" (Scanner.toggleVideo "c" ["a"; "b"]) = ["a"; "b"].
Proof.
  assert (Hnd : NoDup ["a"; "b"]).
  { apply NoDup_cons. split; [| apply NoDup_singleton].
    intros Hin. apply list_elem_of_singleton in Hin. discriminate. }
  assert (Hout : "c" ∉ ["a"; "b"]).
  { intros Hin. apply elem_of_cons in Hin as [Heq | Hin]; [discriminate |].
    apply list_elem_of_singleton in Hin. discriminate. }
  split; [exact Hnd |]. split; [exact Hout |].
  destruct (toggleVideo_flips_one "c" ["a"; "b"]) as (_ & _ & Hkeep & Htwice).
  split; [by apply Hkeep | by apply Htwice].
Defined.

Lemma toggleSelectAll_by_length_witness :
  let videos := [Scanner.mkScanned (Some "v1") "https://x/1";
                 Scanner.mkScanned None "https://x/2"] in
  NoDup (Scanner.key <$> videos) ∧ NoDup ["https://x/2"]
  ∧ (∀ k, k ∈ ["https://x/2"] → k ∈ Scanner.key <$> videos)
  ∧ ¬ (∀ v, v ∈ videos → Scanner.key v ∈ ["https://x/2"])
  ∧ Scanner.toggleSelectAll ["https://x/2"] videos = ["v1"; "https://x/2"].
Proof.
  intros videos.
  assert (Hkeys : NoDup (Scanner.key <$> videos)).
  { apply NoDup_cons. split; [| apply NoDup_singleton].
    intros Hin. apply list_elem_of_singleton in Hin. discriminate. }
  assert (Hsel : NoDup ["https://x/2"]) by apply NoDup_singleton.
  assert (Hsub : ∀ k, k ∈ ["https://x/2"] → k ∈ Scanner.key <$> videos).
  { intros k Hk. apply list_elem_of_singleton in Hk as ->.
    apply list_elem_of_further, list_elem_of_here. }
  assert (Hnot : ¬ (∀ v, v ∈ videos → Scanner.key v ∈ ["https://x/2"])).
  { intros Hall. specialize (Hall _ (list_elem_of_here _ _)).
    apply list_elem_of_singleton in Hall. discriminate. }
  split; [exact Hkeys |]. split; [exact Hsel |]. split; [exact Hsub |].
  split; [exact Hnot |].
  destruct (toggleSelectAll_by_length ["https://x/2"] videos Hkeys Hsel Hsub) as [_ Hpart].
  by destruct (Hpart Hnot) as [-> _].
Defined.

Section FormatFacts.
Import Format.
Local Open Scope Z_scope.

(** A field below sixty prints on exactly two characters. *)
Lemma padStart2_two_chars (n : Z) :
  0 ≤ n < 60 → String.length (padStart2 (pretty n)) = 2%nat.
Proof.
  intros Hn.
  assert (Hall : Forall (fun k => String.length (padStart2 (pretty (Z.of_nat k))) = 2%nat)
                        (seq 0 60)).
  { apply (bool_decide_unpack _). vm_compute. exact I. }
  rewrite Forall_forall in Hall.
  rewrite <- (Z2Nat.id n) by lia. apply Hall. apply elem_of_seq. lia.
Qed.

(** X21: [formatDuration] of a positive whole number of seconds splits it
    into hours, minutes below sixty and seconds below sixty that add up to
    it again, prints minutes and seconds as [m:ss] below one hour and
    hours, minutes and seconds as [h:mm:ss] from one hour on, the [mm] and
    [ss] fields always on two characters; the single downloader's formatter
    prints the same below one hour; an absent or zero duration prints as
    [N/A]. *)
Theorem formatDuration_fields (s : Z) :
  0 < s →
  let h := s / 3600 in
  let m := s mod 3600 / 60 in
  let sec := s mod 60 in
  s = h * 3600 + m * 60 + sec
  ∧ 0 ≤ h ∧ 0 ≤ m < 60 ∧ 0 ≤ sec < 60
  ∧ String.length (padStart2 (pretty m)) = 2%nat
  ∧ String.length (padStart2 (pretty sec)) = 2%nat
  ∧ formatDuration (Some s)
    = (if decide (s < 3600)
       then pretty m +:+ ":" +:+ padStart2 (pretty sec)
       else pretty h +:+ ":" +:+ padStart2 (pretty m) +:+ ":" +:+ padStart2 (pretty sec))
  ∧ (s < 3600 → formatDuration_single (Some s) = formatDuration (Some s))
  ∧ formatDuration (Some 0) = "N/A" ∧ formatDuration None = "N/A".
Proof.
  intros Hs h m sec.
  assert (Hm : 0 ≤ m < 60).
  { subst m. split; [apply Z.div_pos; [apply Z.mod_pos_bound |]; lia |].
    apply Z.div_lt_upper_bound; [lia |]. pose proof (Z.mod_pos_bound s 3600). lia. }
  assert (Hsec : 0 ≤ sec < 60) by (subst sec; apply Z.mod_pos_bound; lia).
  assert (Hh : 0 ≤ h) by (subst h; apply Z.div_pos; lia).
  assert (Hsum : s = h * 3600 + m * 60 + sec).
  { subst h m sec.
    pose proof (Z.div_mod s 3600 ltac:(lia)) as H1.
    pose proof (Z.div_mod (s mod 3600) 60 ltac:(lia)) as H2.
    assert (H3 : (s mod 3600) mod 60 = s mod 60).
    { apply Z.mod_mod_divide. exists 60. reflexivity. }
    lia. }
  assert (Hrem : Z.rem s 3600 = s mod 3600 ∧ Z.rem s 60 = s mod 60)
    by (split; apply Z.rem_mod_nonneg; lia).
  destruct Hrem as [Hr1 Hr2].
  split; [exact Hsum |]. split; [exact Hh |]. split; [exact Hm |]. split; [exact Hsec |].
  split; [by apply padStart2_two_chars |]. split; [by apply padStart2_two_chars |].
  assert (Hfmt : formatDuration (Some s)
    = (if decide (s < 3600)
       then pretty m +:+ ":" +:+ padStart2 (pretty sec)
       else pretty h +:+ ":" +:+ padStart2 (pretty m) +:+ ":" +:+ padStart2 (pretty sec))).
  { unfold formatDuration. rewrite Hr1, Hr2.
    replace (s =? 0) with false by (symmetry; apply Z.eqb_neq; lia).
    fold h m sec. destruct (decide (s < 3600)) as [Hlt | Hge].
    - replace (0 <? h) with false; [reflexivity |].
      symmetry. apply Z.ltb_ge. subst h. rewrite Z.div_small by lia. lia.
    - replace (0 <? h) with true; [reflexivity |].
      symmetry. apply Z.ltb_lt. subst h. apply Z.div_str_pos. lia. }
  split; [exact Hfmt |]. split; [| by split].
  intros Hlt. rewrite Hfmt, decide_True by exact Hlt.
  unfold formatDuration_single. rewrite Hr2.
  replace (s =? 0) with false by (symmetry; apply Z.eqb_neq; lia).
  fold sec. subst m. rewrite (Z.mod_small s 3600) by lia. reflexivity.
Qed.

Lemma formatDuration_fields_witness :
  0 < 3725
  ∧ formatDuration (Some 3725) = "1:02:05"
  ∧ formatDuration_single (Some 3725) = "62:05"
  ∧ 3725 = (3725 / 3600) * 3600 + (3725 mod 3600 / 60) * 60 + 3725 mod 60.
Proof.
  split; [lia |]. split; [vm_compute; reflexivity |]. split; [vm_compute; reflexivity |].
  destruct (formatDuration_fields 3725 ltac:(lia)) as (Hsum & _). exact Hsum.
Defined.

End FormatFacts.
